(** * EPubContainer: the EPUB package parser of EBookEdit

    A shallow embedding of [src/plugins/epubplugin/epubcontainer.cpp].
    The container object is a record that is threaded through the parsing
    functions; every [emit errorHappened(..)] and every [QLOG_WARN(..)] is
    appended to an event trace kept in that record.  The Qt and QuaZip
    classes the parser calls (the XML reader, [QDir::cleanPath],
    [QString::toInt], the zip reader) are an interface the development is
    parametric in. *)

From Stdlib Require Import ZArith Ascii String Sorted.
From stdpp Require Import base strings gmap list fin_maps.

Local Open Scope string_scope.
Local Open Scope list_scope.
Set Warnings "-register-all,-clear-no-such-hyp".

(** ** QString helpers *)

Definition isEmpty (s : string) : bool := bool_decide (s = "").

(** [QString::lastIndexOf(QChar)]: index of the last occurrence, -1 if none. *)
Fixpoint lastIndexOf (c : ascii) (s : string) : Z :=
  match s with
  | EmptyString => (-1)%Z
  | String a rest =>
      let r := lastIndexOf c rest in
      if bool_decide (r = (-1)%Z)
      then (if bool_decide (a = c) then 0%Z else (-1)%Z)
      else (r + 1)%Z
  end.

(** [QString::left(n)]: the [n] leftmost characters. *)
Definition left (n : Z) (s : string) : string :=
  String.substring 0 (Z.to_nat n) s.

(** ** The DOM, as the parser reads it

    An element carries the name [tagName()] returns, the namespace prefix
    [prefix()] returns, its attribute map and its children.  A node that is
    not an element converts, through [toElement()], to the null element:
    empty tag name, empty prefix, no attributes, empty text. *)

(** The attributes of an element, [QDomNamedNodeMap], in the two ways the
    parser reaches them.  [namedItems] is what a lookup by name finds: the
    value of the attribute node filed under that name, which is the local
    name when the document was read with namespace processing and the
    qualified name otherwise.  [itemNodes] is what the enumeration
    [item(0)], .., [item(count() - 1)] delivers: [nodeValue()] of every
    attribute node under its [nodeName()], the qualified name (opf:event
    where the lookup name is event). *)
Record QDomNamedNodeMap : Type := {
  namedItems : gmap string string;
  itemNodes : gmap string string
}.

Global Instance QDomNamedNodeMap_empty : Empty QDomNamedNodeMap :=
  {| namedItems := ∅; itemNodes := ∅ |}.

Inductive QDomNode : Type :=
| ElementNode (tag pre : string) (attrs : QDomNamedNodeMap)
              (children : list QDomNode)
| TextNode (data : string)
| OtherNode (data : string).

Definition QDomDocument : Type := list QDomNode.

Definition isElement (n : QDomNode) : bool :=
  match n with ElementNode _ _ _ _ => true | _ => false end.

Definition tagName (n : QDomNode) : string :=
  match n with ElementNode t _ _ _ => t | _ => "" end.

Definition prefix (n : QDomNode) : string :=
  match n with ElementNode _ p _ _ => p | _ => "" end.

Definition attributes (n : QDomNode) : QDomNamedNodeMap :=
  match n with ElementNode _ _ a _ => a | _ => ∅ end.

Definition childNodes (n : QDomNode) : list QDomNode :=
  match n with ElementNode _ _ _ cs => cs | _ => [] end.

(** [QDomElement::attribute(name)]: the value, or the empty string. *)
Definition attribute (n : QDomNode) (name : string) : string :=
  default "" (namedItems (attributes n) !! name).

(** Character data below a node, in document order. *)
Fixpoint nodeText (n : QDomNode) : string :=
  match n with
  | ElementNode _ _ _ cs =>
      (fix go (l : list QDomNode) : string :=
         match l with
         | [] => ""
         | c :: l' => nodeText c +:+ go l'
         end) cs
  | TextNode d => d
  | OtherNode _ => ""
  end.

(** [QDomElement::text()]; the null element has no text. *)
Definition text (n : QDomNode) : string :=
  if isElement n then nodeText n else "".

(** The nodes of a subtree in document (pre-)order, its root first. *)
Fixpoint subtree (n : QDomNode) : list QDomNode :=
  n :: match n with
       | ElementNode _ _ _ cs =>
           (fix go (l : list QDomNode) : list QDomNode :=
              match l with
              | [] => []
              | c :: l' => (subtree c ++ go l')%list
              end) cs
       | _ => []
       end.

Definition named (name : string) (n : QDomNode) : bool :=
  isElement n && bool_decide (tagName n = name).

(** [QDomElement::elementsByTagName]: the proper descendants with that name. *)
Definition elementsByTagName (n : QDomNode) (name : string) : list QDomNode :=
  List.filter (named name) (flat_map subtree (childNodes n)).

(** [QDomDocument::elementsByTagName]: every element of the document. *)
Definition documentElementsByTagName (d : QDomDocument) (name : string)
  : list QDomNode :=
  List.filter (named name) (flat_map subtree d).

(** A [QDomElement] handle that knows where it sits among its siblings: the
    element and the nodes that follow it under the same parent.  [None] is
    the null element. *)
Definition QDomElement : Type := option (QDomNode * list QDomNode).

Definition isNull (e : QDomElement) : bool :=
  match e with None => true | Some _ => false end.

(** The node behind a handle; the null element reads as a non-element. *)
Definition elem (e : QDomElement) : QDomNode :=
  match e with Some (n, _) => n | None => OtherNode "" end.

(** First element of [l] whose tag name is [name] (any element when [name]
    is empty), with the nodes after it. *)
Fixpoint findElement (name : string) (l : list QDomNode) : QDomElement :=
  match l with
  | [] => None
  | n :: rest =>
      if isElement n && (isEmpty name || bool_decide (tagName n = name))
      then Some (n, rest)
      else findElement name rest
  end.

Definition firstChildElement (e : QDomElement) (name : string) : QDomElement :=
  findElement name (childNodes (elem e)).

Definition nextSiblingElement (e : QDomElement) (name : string) : QDomElement :=
  match e with
  | None => None
  | Some (_, following) => findElement name following
  end.

Definition documentElement (d : QDomDocument) : QDomElement :=
  findElement "" d.

(** ** The zip archive and the Qt services *)

(** An opened archive: the entry names [getFileNameList] reports, and what
    [setCurrentFile(name)], [open(ReadOnly)] and [readAll()] deliver for a
    name ([None] when the entry cannot be opened). *)
Record QuaZip : Type := {
  getFileNameList : list string;
  readAll : string → option string
}.

Class Qt : Type := {
  (** [QuaZip(path).open(mdUnzip)]: the archive at [path], if it opens *)
  QuaZip_open : string → option QuaZip;
  (** [QDomDocument::setContent(text, namespaceProcessing)]: the success
      flag and the document left behind *)
  setContent : string → bool → bool * QDomDocument;
  (** [QDir::cleanPath] *)
  cleanPath : string → string;
  (** the [int] a string denotes, when [QString::toInt] can convert it *)
  parseInt : string → option Z
}.

(** [QString::toInt(&ok)]: zero when the conversion fails. *)
Definition toInt `{Qt} (s : string) : Z * bool :=
  match parseInt s with
  | Some z => (z, true)
  | None => (0%Z, false)
  end.

(** ** The document model

    The classes are declared in epubcontainer.h, which is not among the
    sources; the records hold the members the parser reads and writes. *)

Record EPubItem : Type := {
  mimetype : string;
  path : string
}.

Inductive StandardType : Type :=
| CoverPage | TitlePage | TableOfContents | Index | Glossary
| Acknowledgements | Bibliography | Colophon | CopyrightPage | Dedication
| Epigraph | Foreword | ListOfIllustrations | ListOfTables | Notes
| Preface | Text | Other.

Record EPubPageReference : Type := {
  target : string;
  title : string
}.

Record EPubNavPoint : Type := {
  classname : string;
  navId : string;
  label : string;
  src : string
}.

(** Modelled from the spec: the declaration of [EPubToc::navmap] is in
    epubcontainer.h, which is not among the sources.  The data model calls
    it an ordered-by-playOrder mapping of integer playOrder to NavPoint, that
    is a [QMap<int, navpoint_t>]: one value per key, iterated by ascending
    key.  It is kept as the list of its entries in iteration order. *)
Definition QMap (A : Type) : Type := list (Z * A).

(** [map[k] = v] on a [QMap]. *)
Fixpoint QMap_insert {A : Type} (k : Z) (v : A) (m : QMap A) : QMap A :=
  match m with
  | [] => [(k, v)]
  | (k', v') :: m' =>
      if (k <? k')%Z then (k, v) :: m
      else if (k =? k')%Z then (k, v) :: m'
      else (k', v') :: QMap_insert k v m'
  end.

Fixpoint QMap_value {A : Type} (m : QMap A) (k : Z) : option A :=
  match m with
  | [] => None
  | (k', v') :: m' => if (k =? k')%Z then Some v' else QMap_value m' k
  end.

Definition QMap_keys {A : Type} (m : QMap A) : list Z := List.map fst m.

Record EPubToc : Type := {
  version : string;
  xmlns : string;
  xml_lang : string;
  toc_title : string;
  toc_metadata : gmap string string;
  navmap : QMap EPubNavPoint
}.

Definition set_toc_metadata (v : gmap string string) (t : EPubToc) : EPubToc :=
  {| version := version t; xmlns := xmlns t; xml_lang := xml_lang t;
     toc_title := toc_title t; toc_metadata := v; navmap := navmap t |}.

Definition set_toc_title (v : string) (t : EPubToc) : EPubToc :=
  {| version := version t; xmlns := xmlns t; xml_lang := xml_lang t;
     toc_title := v; toc_metadata := toc_metadata t; navmap := navmap t |}.

Definition set_navmap (v : QMap EPubNavPoint) (t : EPubToc) : EPubToc :=
  {| version := version t; xmlns := xmlns t; xml_lang := xml_lang t;
     toc_title := toc_title t; toc_metadata := toc_metadata t; navmap := v |}.

(** The texts of the diagnostics; an argument the DOM or the zip library
    supplies (a line number, a zip error code) is left out. *)
Inductive Message : Type :=
| FailedToOpen (path : string)        (* Failed to open %1 *)
| FailedToRead (path : string)        (* Failed to read %1 *)
| UnableToOpenMimetype                (* Unable to open mimetype file *)
| UnexpectedMimetype (m : string)     (* Unexpected mimetype %1 *)
| UnableToFindMimetype                (* Unable to find mimetype in file *)
| UnableToOpenContainer               (* Unable to open container file error %1 *)
| InvalidRootFileEntry                (* Invalid root file entry *)
| UnableToFindContainer               (* Unable to find container information *)
| NoContentFiles                      (* Unable to find and use any content files *)
| MalformedMetadata                   (* Malformed metadata, unable to get content metadata path *)
| UnsupportedMetadataTag (tag : string) (* Unsupported metadata tag %1 *)
| InvalidItem                         (* Invalid item at line %1 *)
| InvalidSpineItem                    (* Invalid spine item at line %1 *)
| UnableToFindItem (ref : string)     (* Unable to find %1 in items *)
| InvalidGuideItem (target title type : string). (* Invalid guide item %1 %2 %3 *)

(** What the parser lets the outside see while it runs. *)
Inductive Event : Type :=
| errorHappened (m : Message)   (* emit errorHappened(..) *)
| QLOG_WARN (m : Message).      (* QLOG_WARN(..) *)

Definition isWarning (e : Event) : bool :=
  match e with errorHappened _ => false | QLOG_WARN _ => true end.

(** Decidable equality and a counting of the standard types, for maps keyed
    by them. *)
Global Instance StandardType_eq_dec : EqDecision StandardType.
Proof. solve_decision. Defined.

Definition StandardType_code (t : StandardType) : nat :=
  match t with
  | CoverPage => 0 | TitlePage => 1 | TableOfContents => 2 | Index => 3
  | Glossary => 4 | Acknowledgements => 5 | Bibliography => 6
  | Colophon => 7 | CopyrightPage => 8 | Dedication => 9 | Epigraph => 10
  | Foreword => 11 | ListOfIllustrations => 12 | ListOfTables => 13
  | Notes => 14 | Preface => 15 | Text => 16 | Other => 17
  end.

Definition StandardType_all : list StandardType :=
  [CoverPage; TitlePage; TableOfContents; Index; Glossary; Acknowledgements;
   Bibliography; Colophon; CopyrightPage; Dedication; Epigraph; Foreword;
   ListOfIllustrations; ListOfTables; Notes; Preface; Text; Other].

Global Instance StandardType_countable : Countable StandardType.
Proof.
  refine (inj_countable' StandardType_code
            (λ n, default Other (StandardType_all !! n)) _).
  intros []; reflexivity.
Defined.

(** The members of [EPubContainer] the parser writes, and the trace of what
    it emitted. *)
Record EPubContainer : Type := {
  m_filename : string;
  m_metadata : gmap string string;
  m_othermetatags : gmap string (gmap string string);
  m_items : gmap string EPubItem;
  m_unorderedItems : gset string;
  m_orderedItems : list string;
  m_standardReferences : gmap StandardType EPubPageReference;
  m_otherReferences : gmap string EPubPageReference;
  m_toc : EPubToc;
  events : list Event
}.

(** The container as its constructor leaves it. *)
Definition newEPubToc : EPubToc :=
  {| version := ""; xmlns := ""; xml_lang := ""; toc_title := "";
     toc_metadata := ∅; navmap := [] |}.

Definition newEPubContainer : EPubContainer :=
  {| m_filename := ""; m_metadata := ∅; m_othermetatags := ∅; m_items := ∅;
     m_unorderedItems := ∅; m_orderedItems := []; m_standardReferences := ∅;
     m_otherReferences := ∅; m_toc := newEPubToc; events := [] |}.

Definition set_filename (v : string) (s : EPubContainer) : EPubContainer :=
  {| m_filename := v; m_metadata := m_metadata s;
     m_othermetatags := m_othermetatags s; m_items := m_items s;
     m_unorderedItems := m_unorderedItems s;
     m_orderedItems := m_orderedItems s;
     m_standardReferences := m_standardReferences s;
     m_otherReferences := m_otherReferences s; m_toc := m_toc s;
     events := events s |}.

Definition set_metadata (v : gmap string string) (s : EPubContainer)
  : EPubContainer :=
  {| m_filename := m_filename s; m_metadata := v;
     m_othermetatags := m_othermetatags s; m_items := m_items s;
     m_unorderedItems := m_unorderedItems s;
     m_orderedItems := m_orderedItems s;
     m_standardReferences := m_standardReferences s;
     m_otherReferences := m_otherReferences s; m_toc := m_toc s;
     events := events s |}.

Definition set_othermetatags (v : gmap string (gmap string string))
  (s : EPubContainer) : EPubContainer :=
  {| m_filename := m_filename s; m_metadata := m_metadata s;
     m_othermetatags := v; m_items := m_items s;
     m_unorderedItems := m_unorderedItems s;
     m_orderedItems := m_orderedItems s;
     m_standardReferences := m_standardReferences s;
     m_otherReferences := m_otherReferences s; m_toc := m_toc s;
     events := events s |}.

Definition set_items (v : gmap string EPubItem) (s : EPubContainer)
  : EPubContainer :=
  {| m_filename := m_filename s; m_metadata := m_metadata s;
     m_othermetatags := m_othermetatags s; m_items := v;
     m_unorderedItems := m_unorderedItems s;
     m_orderedItems := m_orderedItems s;
     m_standardReferences := m_standardReferences s;
     m_otherReferences := m_otherReferences s; m_toc := m_toc s;
     events := events s |}.

Definition set_unorderedItems (v : gset string) (s : EPubContainer)
  : EPubContainer :=
  {| m_filename := m_filename s; m_metadata := m_metadata s;
     m_othermetatags := m_othermetatags s; m_items := m_items s;
     m_unorderedItems := v;
     m_orderedItems := m_orderedItems s;
     m_standardReferences := m_standardReferences s;
     m_otherReferences := m_otherReferences s; m_toc := m_toc s;
     events := events s |}.

Definition set_orderedItems (v : list string) (s : EPubContainer)
  : EPubContainer :=
  {| m_filename := m_filename s; m_metadata := m_metadata s;
     m_othermetatags := m_othermetatags s; m_items := m_items s;
     m_unorderedItems := m_unorderedItems s;
     m_orderedItems := v;
     m_standardReferences := m_standardReferences s;
     m_otherReferences := m_otherReferences s; m_toc := m_toc s;
     events := events s |}.

Definition set_standardReferences
  (v : gmap StandardType EPubPageReference) (s : EPubContainer)
  : EPubContainer :=
  {| m_filename := m_filename s; m_metadata := m_metadata s;
     m_othermetatags := m_othermetatags s; m_items := m_items s;
     m_unorderedItems := m_unorderedItems s;
     m_orderedItems := m_orderedItems s;
     m_standardReferences := v;
     m_otherReferences := m_otherReferences s; m_toc := m_toc s;
     events := events s |}.

Definition set_otherReferences (v : gmap string EPubPageReference)
  (s : EPubContainer) : EPubContainer :=
  {| m_filename := m_filename s; m_metadata := m_metadata s;
     m_othermetatags := m_othermetatags s; m_items := m_items s;
     m_unorderedItems := m_unorderedItems s;
     m_orderedItems := m_orderedItems s;
     m_standardReferences := m_standardReferences s;
     m_otherReferences := v; m_toc := m_toc s;
     events := events s |}.

Definition set_toc (v : EPubToc) (s : EPubContainer) : EPubContainer :=
  {| m_filename := m_filename s; m_metadata := m_metadata s;
     m_othermetatags := m_othermetatags s; m_items := m_items s;
     m_unorderedItems := m_unorderedItems s;
     m_orderedItems := m_orderedItems s;
     m_standardReferences := m_standardReferences s;
     m_otherReferences := m_otherReferences s; m_toc := v;
     events := events s |}.

Definition log (e : Event) (s : EPubContainer) : EPubContainer :=
  {| m_filename := m_filename s; m_metadata := m_metadata s;
     m_othermetatags := m_othermetatags s; m_items := m_items s;
     m_unorderedItems := m_unorderedItems s;
     m_orderedItems := m_orderedItems s;
     m_standardReferences := m_standardReferences s;
     m_otherReferences := m_otherReferences s; m_toc := m_toc s;
     events := events s ++ [e] |}.

(** [emit errorHappened(m)] and [QLOG_WARN(m)]. *)
Definition emitError (m : Message) : EPubContainer → EPubContainer :=
  log (errorHappened m).
Definition warn (m : Message) : EPubContainer → EPubContainer :=
  log (QLOG_WARN m).

(** [m[key]] read through the non-const [operator[]]: the stored value, and
    the map with an empty value inserted when the key was absent. *)
Definition subscript (m : gmap string string) (key : string)
  : string * gmap string string :=
  match m !! key with
  | Some v => (v, m)
  | None => ("", <[key := ""]> m)
  end.

(** [EPubContainer::metadata]: [m_metadata.value(key)]. *)
Definition metadata (s : EPubContainer) (key : string) : string :=
  default "" (m_metadata s !! key).

(** [EPubContainer::setMetadata]. *)
Definition setMetadata (key value : string) (s : EPubContainer)
  : EPubContainer :=
  set_metadata (<[key := value]> (m_metadata s)) s.

(** ** The parser *)

Definition MIMETYPE_FILE : string := "mimetype".
Definition CONTAINER_FILE : string := "META-INF/container.xml".
Definition TOC_FILE : string := "toc.ncx".

(** [QStringList::contains]. *)
Definition contains (l : list string) (x : string) : bool :=
  bool_decide (x ∈ l).

(** [EPubPageReference::typeFromString]. *)
Definition typeFromString (name : string) : StandardType :=
  if bool_decide (name = "cover") then CoverPage
  else if bool_decide (name = "title-page") then TitlePage
  else if bool_decide (name = "toc") then TableOfContents
  else if bool_decide (name = "index") then Index
  else if bool_decide (name = "glossary") then Glossary
  else if bool_decide (name = "acknowledgements") then Acknowledgements
  else if bool_decide (name = "bibliography") then Bibliography
  else if bool_decide (name = "colophon") then Colophon
  else if bool_decide (name = "copyright-page") then CopyrightPage
  else if bool_decide (name = "dedication") then Dedication
  else if bool_decide (name = "epigraph") then Epigraph
  else if bool_decide (name = "foreword") then Foreword
  else if bool_decide (name = "loi") then ListOfIllustrations
  else if bool_decide (name = "lot") then ListOfTables
  else if bool_decide (name = "notes") then Notes
  else if bool_decide (name = "preface") then Preface
  else if bool_decide (name = "text") then Text
  else Other.

(** The copy of the attribute map that [parseMetadataItem] builds entry by
    entry: [map[node.nodeName()] = node.nodeValue()] for every item. *)
Definition copyAttributes (nodeMap : QDomNamedNodeMap) : gmap string string :=
  map_fold (λ name value map, <[name := value]> map) ∅ (itemNodes nodeMap).

(** [EPubContainer::parseMetadataItem].  The chain of branches yields the
    name, the value and the container as reading [m_metadata["creator"]]
    left it, or nothing for an unsupported tag. *)
Definition parseMetadataItem (metadataNode : QDomNode) (s : EPubContainer)
  : bool * EPubContainer :=
  let tag := tagName metadataNode in
  let nodeMap := attributes metadataNode in
  let classified : option (string * string * EPubContainer) :=
    if bool_decide (tag = "meta") then
      Some (attribute metadataNode "name", attribute metadataNode "content", s)
    else if negb (bool_decide (prefix metadataNode = "dc")) then
      None
    else if bool_decide (tag = "date") then
      Some (attribute metadataNode "event", text metadataNode, s)
    else if bool_decide (tag = "creator") then
      let '(current, md) := subscript (m_metadata s) "creator" in
      let s1 := set_metadata md s in
      if isEmpty current then Some (tag, text metadataNode, s1)
      else Some (tag, current +:+ "; " +:+ text metadataNode, s1)
    else
      Some (tag, text metadataNode, s)
  in
  match classified with
  | None => (false, warn (UnsupportedMetadataTag tag) s)
  | Some (metaName, metaValue, s1) =>
      if isEmpty metaName || isEmpty metaValue then (false, s1)
      else
        let s2 := set_metadata (<[metaName := metaValue]> (m_metadata s1)) s1 in
        let s3 :=
          if bool_decide (itemNodes nodeMap = ∅) then s2
          else set_othermetatags
                 (<[metaName := copyAttributes nodeMap]> (m_othermetatags s2)) s2
        in (true, s3)
  end.

Definition documentTypes : list string :=
  ["text/x-oeb1-document"; "application/x-dtbook+xml"; "application/xhtml+xml"].

(** [EPubContainer::parseSpineItem].  The test of the [linear] attribute
    has an empty body in the source and leaves no trace here.  The warning
    for an itemref without idref names the line of the itemref in the
    source; nodes carry no line here and [InvalidSpineItem] stands for the
    warning whatever the line, so the trace does not tell two such
    warnings apart. *)
Definition parseSpineItem (spineNode : QDomNode) (s : EPubContainer)
  : bool * EPubContainer :=
  let referenceName := attribute spineNode "idref" in
  if isEmpty referenceName then (false, warn InvalidSpineItem s)
  else if negb (bool_decide (referenceName ∈ dom (m_items s))) then
    (false, warn (UnableToFindItem referenceName) s)
  else
    let s1 := set_unorderedItems (m_unorderedItems s ∖ {[referenceName]}) s in
    let s2 := set_orderedItems (m_orderedItems s1 ++ [referenceName]) s1 in
    (true, s2).

(** [EPubContainer::parseGuideItem]. *)
Definition parseGuideItem (guideItem : QDomNode) (s : EPubContainer)
  : bool * EPubContainer :=
  let target := attribute guideItem "href" in
  let title := attribute guideItem "title" in
  let type := attribute guideItem "type" in
  if isEmpty target || isEmpty title || isEmpty type then
    (false, warn (InvalidGuideItem target title type) s)
  else
    let reference := {| target := target; title := title |} in
    let standardType := typeFromString type in
    if bool_decide (standardType = Other) then
      (true, set_otherReferences (<[type := reference]> (m_otherReferences s)) s)
    else
      (true, set_standardReferences
               (<[standardType := reference]> (m_standardReferences s)) s).

(** The folder part that [parseContentFile] cuts off the path of the
    package document. *)
Definition contentFileFolder (filepath : string) : string :=
  let separatorIndex := lastIndexOf "/" filepath in
  if (0 <? separatorIndex)%Z then left (separatorIndex + 1) filepath else "".

(** A [for] loop that calls an item parser on each node and drops the
    returned flag. *)
Definition forEach (f : QDomNode → EPubContainer → bool * EPubContainer)
  (l : list QDomNode) (s : EPubContainer) : EPubContainer :=
  foldl (λ acc n, snd (f n acc)) s l.

Section Parser.
Context `{Qt}.

(** [EPubContainer::parseManifestItem]. *)
Definition parseManifestItem (manifestNode : QDomNode) (currentFolder : string)
  (s : EPubContainer) : bool * EPubContainer :=
  let id := attribute manifestNode "id" in
  let href := attribute manifestNode "href" in
  let type := attribute manifestNode "media-type" in
  if isEmpty id || isEmpty href then (false, warn InvalidItem s)
  else
    let item := {| mimetype := type; path := cleanPath (currentFolder +:+ href) |} in
    let s1 := set_items (<[id := item]> (m_items s)) s in
    if contains documentTypes type
    then (true, set_unorderedItems ({[id]} ∪ m_unorderedItems s1) s1)
    else (true, s1).

(** The four passes of [parseContentFile] over the parsed document. *)
Definition parseMetadataNodes (document : QDomDocument) (s : EPubContainer)
  : EPubContainer :=
  foldl (λ acc metadataNode, forEach parseMetadataItem (childNodes metadataNode) acc)
        s (documentElementsByTagName document "metadata").

Definition parseManifestNodes (document : QDomDocument) (folder : string)
  (s : EPubContainer) : EPubContainer :=
  foldl (λ acc manifestElement,
           forEach (λ n, parseManifestItem n folder)
                   (elementsByTagName manifestElement "item") acc)
        s (documentElementsByTagName document "manifest").

Definition parseSpineNode (spineElement : QDomNode) (s : EPubContainer)
  : EPubContainer :=
  let tocId := attribute spineElement "toc" in
  let s1 :=
    if negb (isEmpty tocId) && bool_decide (tocId ∈ dom (m_items s)) then
      let tocReference := {| target := tocId; title := "Table of Contents" |} in
      set_standardReferences
        (<[TableOfContents := tocReference]> (m_standardReferences s)) s
    else s in
  forEach parseSpineItem (elementsByTagName spineElement "itemref") s1.

Definition parseSpineNodes (document : QDomDocument) (s : EPubContainer)
  : EPubContainer :=
  foldl (λ acc spineElement, parseSpineNode spineElement acc)
        s (documentElementsByTagName document "spine").

Definition parseGuideNodes (document : QDomDocument) (s : EPubContainer)
  : EPubContainer :=
  foldl (λ acc guideElement,
           forEach parseGuideItem (elementsByTagName guideElement "reference") acc)
        s (documentElementsByTagName document "guide").

Definition parsePackageDocument (document : QDomDocument) (filepath : string)
  (s : EPubContainer) : EPubContainer :=
  let s1 := parseMetadataNodes document s in
  let s2 := parseManifestNodes document (contentFileFolder filepath) s1 in
  let s3 := parseSpineNodes document s2 in
  parseGuideNodes document s3.

(** [EPubContainer::parseContentFile]. *)
Definition parseContentFile (archive : QuaZip) (filepath : string)
  (s : EPubContainer) : bool * EPubContainer :=
  match readAll archive filepath with
  | None => (false, emitError MalformedMetadata s)
  | Some content =>
      let document := snd (setContent content true) in
      (true, parsePackageDocument document filepath s)
  end.

(** [EPubContainer::parseMimetype]. *)
Definition parseMimetype (archive : QuaZip) (files : list string)
  (s : EPubContainer) : bool * EPubContainer :=
  if contains files MIMETYPE_FILE then
    match readAll archive MIMETYPE_FILE with
    | None => (false, emitError UnableToOpenMimetype s)
    | Some mimetype =>
        if negb (bool_decide (mimetype = "application/epub+zip"))
        then (true, emitError (UnexpectedMimetype mimetype) s)
        else (true, s)
    end
  else (false, emitError UnableToFindMimetype s).

(** The loop of [parseContainer] over the [rootfile] elements: [true] when
    a candidate parsed and the function returned from inside the loop,
    [false] when the loop ran out. *)
Fixpoint parseRootfiles (archive : QuaZip) (rootNodes : list QDomNode)
  (s : EPubContainer) : bool * EPubContainer :=
  match rootNodes with
  | [] => (false, s)
  | rootElement :: rest =>
      let rootfilePath := attribute rootElement "full-path" in
      if isEmpty rootfilePath then
        parseRootfiles archive rest (warn InvalidRootFileEntry s)
      else
        let '(ok, s1) := parseContentFile archive rootfilePath s in
        if ok then (true, s1) else parseRootfiles archive rest s1
  end.

(** [EPubContainer::parseContainer]. *)
Definition parseContainer (archive : QuaZip) (files : list string)
  (s : EPubContainer) : bool * EPubContainer :=
  if contains files CONTAINER_FILE then
    match readAll archive CONTAINER_FILE with
    | None => (false, emitError UnableToOpenContainer s)
    | Some container =>
        let document := snd (setContent container false) in
        let rootNodes := documentElementsByTagName document "rootfile" in
        let '(ok, s1) := parseRootfiles archive rootNodes s in
        if ok then (true, s1) else (false, emitError NoContentFiles s1)
    end
  else (false, emitError UnableToFindContainer s).

(** The two [while] loops of [parseToc].  Each iteration spends one unit of
    [fuel]; [None] means the fuel ran out before the loop condition failed. *)
Fixpoint tocMetaLoop (fuel : nat) (head meta : QDomElement) (toc : EPubToc)
  : option EPubToc :=
  if isNull meta then Some toc
  else
    match fuel with
    | O => None
    | S fuel' =>
        let name := attribute (elem meta) "name" in
        let content := attribute (elem meta) "content" in
        tocMetaLoop fuel' head (nextSiblingElement head "navPoint")
          (set_toc_metadata (<[name := content]> (toc_metadata toc)) toc)
    end.

Fixpoint tocNavPointLoop (fuel : nat) (navPoint : QDomElement) (toc : EPubToc)
  : option EPubToc :=
  if isNull navPoint then Some toc
  else
    match fuel with
    | O => None
    | S fuel' =>
        let classname := attribute (elem navPoint) "class" in
        let id := attribute (elem navPoint) "id" in
        let playorder := fst (toInt (attribute (elem navPoint) "playOrder")) in
        let navLabel := firstChildElement navPoint "navLabel" in
        let label := text (elem navLabel) in
        let content := firstChildElement navPoint "content" in
        let src := attribute (elem content) "src" in
        let navpoint := {| classname := classname; navId := id;
                           label := label; src := src |} in
        tocNavPointLoop fuel' (nextSiblingElement navPoint "navPoint")
          (set_navmap (QMap_insert playorder navpoint (navmap toc)) toc)
    end.

(** What [parseToc] does with a document that [setContent] accepted. *)
Definition parseTocDocument (fuel : nat) (document : QDomDocument)
  (toc : EPubToc) : option EPubToc :=
  let rootNode := documentElement document in
  let toc1 :=
    {| version := attribute (elem rootNode) "version";
       xmlns := attribute (elem rootNode) "xmlns";
       xml_lang := attribute (elem rootNode) "xml:lang";
       toc_title := toc_title toc;
       toc_metadata := toc_metadata toc;
       navmap := navmap toc |} in
  let head := firstChildElement rootNode "head" in
  let meta := firstChildElement head "meta" in
  match tocMetaLoop fuel head meta toc1 with
  | None => None
  | Some toc2 =>
      let titleNode := firstChildElement rootNode "docTitle" in
      let toc3 := set_toc_title (text (elem titleNode)) toc2 in
      let navMap := firstChildElement rootNode "navMap" in
      let navPoint := firstChildElement navMap "navPoint" in
      tocNavPointLoop fuel navPoint toc3
  end.

(** [EPubContainer::parseToc]. *)
Definition parseToc (fuel : nat) (archive : QuaZip) (files : list string)
  (s : EPubContainer) : option (bool * EPubContainer) :=
  if contains files TOC_FILE then
    match readAll archive TOC_FILE with
    | None => Some (false, emitError UnableToOpenContainer s)
    | Some data =>
        let '(ok, document) := setContent data false in
        if ok then
          match parseTocDocument fuel document (m_toc s) with
          | None => None
          | Some toc => Some (true, set_toc toc s)
          end
        else Some (true, s)
    end
  else Some (true, s).

(** [EPubContainer::openFile].  The source first replaces [m_archive] by a
    new [QuaZip] for the path, before any check; the record has no member
    for it: the archive at the path is handed to the stages, and to the
    accessors, as an argument. *)
Definition openFile (fuel : nat) (path : string) (s : EPubContainer)
  : option (bool * EPubContainer) :=
  let s0 := set_filename path s in
  match QuaZip_open path with
  | None => Some (false, emitError (FailedToOpen path) s0)
  | Some archive =>
      let files := getFileNameList archive in
      if bool_decide (files = []) then
        Some (false, emitError (FailedToRead path) s0)
      else
        let '(ok1, s1) := parseMimetype archive files s0 in
        if negb ok1 then Some (false, s1)
        else
          let '(ok2, s2) := parseContainer archive files s1 in
          if negb ok2 then Some (false, s2)
          else
            match parseToc fuel archive files s2 with
            | None => None
            | Some (ok3, s3) => if negb ok3 then Some (false, s3) else Some (true, s3)
            end
  end.

End Parser.

(** ** The accessors

    [zipFile] and [image] read the archive that [openFile] left in
    [m_archive]; they write no member of the container, so they return
    what they deliver together with what they emit. *)

(** The diagnostics of the accessors. *)
Inductive AccessorMessage : Type :=
| UnableToOpenFile (path : string)          (* Unable to open file %1 *)
| AskedForUnknownItem (id : string)         (* Asked for unknown item %1 *)
| AskedForUnsupportedType (type : string).  (* Asked for unsupported type %1 *)

Inductive AccessorEvent : Type :=
| accessorError (m : AccessorMessage)   (* emit errorHappened(..) *)
| accessorWarn (m : AccessorMessage).   (* QLOG_WARN(..) *)

(** The image classes of Qt: the null image [QImage()], the list
    [QImageReader::supportedMimeTypes()] and the decoder
    [QImage::fromData]. *)
Class QtGui : Type := {
  QImage : Type;
  nullImage : QImage;
  supportedMimeTypes : list string;
  fromData : string → QImage
}.

(** [EPubContainer::zipFile]: the opened entry, read through, or the null
    pointer. *)
Definition zipFile (archive : QuaZip) (path : string)
  : option string * list AccessorEvent :=
  match readAll archive path with
  | None => (None, [accessorError (UnableToOpenFile path)])
  | Some content => (Some content, [])
  end.

(** [EPubContainer::image]. *)
Definition image `{QtGui} (archive : QuaZip) (id : string) (s : EPubContainer)
  : QImage * list AccessorEvent :=
  match m_items s !! id with
  | None => (nullImage, [accessorWarn (AskedForUnknownItem id)])
  | Some item =>
      if negb (contains supportedMimeTypes (mimetype item)) then
        (nullImage, [accessorWarn (AskedForUnsupportedType (mimetype item))])
      else
        match zipFile archive (path item) with
        | (None, evs) => (nullImage, evs)
        | (Some data, evs) => (fromData data, evs)
        end
  end.

(** [EPubContainer::toc] and [EPubContainer::writeToc]. *)
Definition toc (s : EPubContainer) : EPubToc := m_toc s.
Definition writeToc (s : EPubContainer) : bool := false.

(** ** A concrete Qt for the fixtures

    Small stand-ins for the library calls, enough to run the parser on the
    fixture archives below: a path cleaner for slash-separated paths, a
    decimal reader for [int], an XML reader that knows the fixture texts and
    a file system that holds the fixture archives. *)

Module Fixture.

Fixpoint splitOn (c : ascii) (s : string) : list string :=
  match s with
  | EmptyString => [""]
  | String a rest =>
      match splitOn c rest with
      | [] => [""]
      | seg :: segs =>
          if bool_decide (a = c) then "" :: seg :: segs
          else String a seg :: segs
      end
  end.

Fixpoint join (sep : string) (l : list string) : string :=
  match l with
  | [] => ""
  | [x] => x
  | x :: rest => x +:+ sep +:+ join sep rest
  end.

(** One step of path cleaning, on the stack of segments kept so far (last
    segment first). *)
Definition cleanStep (absolute : bool) (kept : list string) (seg : string)
  : list string :=
  if bool_decide (seg = "") || bool_decide (seg = ".") then kept
  else if bool_decide (seg = "..") then
    match kept with
    | [] => if absolute then [] else [".."]
    | top :: below => if bool_decide (top = "..") then seg :: kept else below
    end
  else seg :: kept.

Definition startsWithSlash (s : string) : bool :=
  match s with
  | String a _ => bool_decide (a = "/"%char)
  | EmptyString => false
  end.

Definition cleanSlashPath (p : string) : string :=
  let absolute := startsWithSlash p in
  let kept := rev (foldl (cleanStep absolute) [] (splitOn "/" p)) in
  let body := join "/" kept in
  if absolute then "/" +:+ body
  else if isEmpty body && negb (isEmpty p) then "." else body.

Definition digit (a : ascii) : option Z :=
  let n := nat_of_ascii a in
  if (48 <=? n)%nat && (n <=? 57)%nat then Some (Z.of_nat (n - 48)) else None.

Fixpoint digits (acc : Z) (s : string) : option Z :=
  match s with
  | EmptyString => Some acc
  | String a rest =>
      match digit a with
      | Some d => digits (10 * acc + d) rest
      | None => None
      end
  end.

Definition inIntRange (z : Z) : option Z :=
  if (-2147483648 <=? z)%Z && (z <=? 2147483647)%Z then Some z else None.

Definition decimalInt (s : string) : option Z :=
  match s with
  | EmptyString => None
  | String "-" EmptyString => None
  | String "+" EmptyString => None
  | String "-" rest => z ← digits 0 rest; inIntRange (- z)
  | String "+" rest => z ← digits 0 rest; inIntRange z
  | _ => z ← digits 0 s; inIntRange z
  end.

(** Attributes without a prefix: the name that is looked up is the node
    name. *)
Definition plain (attrs : list (string * string)) : QDomNamedNodeMap :=
  {| namedItems := list_to_map attrs; itemNodes := list_to_map attrs |}.

Definition el (tag : string) (attrs : list (string * string))
  (children : list QDomNode) : QDomNode :=
  ElementNode tag "" (plain attrs) children.

Definition dc (tag : string) (attrs : list (string * string))
  (children : list QDomNode) : QDomNode :=
  ElementNode tag "dc" (plain attrs) children.

(** META-INF/container.xml: an empty candidate, one that is not in the
    archive, then the package document. *)
Definition containerText : string :=
  "<container><rootfiles><rootfile full-path=''/><rootfile full-path='gone.opf'/><rootfile full-path='OEBPS/content.opf'/></rootfiles></container>".

Definition containerDom : QDomDocument :=
  [el "container" []
     [el "rootfiles" []
        [el "rootfile" [("full-path", "")] [];
         el "rootfile" [("full-path", "gone.opf")] [];
         el "rootfile" [("full-path", "OEBPS/content.opf")] []]]].

(** OEBPS/content.opf, read with namespace processing. *)
Definition contentText : string :=
  "<package><metadata><dc:creator>A</dc:creator><dc:creator>B</dc:creator><dc:title>T</dc:title><meta name='cover' content='img'/><x:foo>z</x:foo></metadata><manifest><item id='c1' href='chap1.xhtml' media-type='application/xhtml+xml'/><item id='c2' href='chap2.xhtml' media-type='application/xhtml+xml'/><item id='c3' href='chap3.xhtml' media-type='application/xhtml+xml'/><item id='img' href='cover.png' media-type='image/png'/><item id='ncx' href='../toc.ncx' media-type='application/x-dtbncx+xml'/></manifest><spine toc='ncx'><itemref idref='c2'/><itemref idref='nope'/><itemref/><itemref idref='c1'/></spine><guide><reference type='cover' title='Cover' href='cover.xhtml'/><reference type='endnotes' title='Notes' href='notes.xhtml'/><reference type='toc' href='toc.xhtml'/></guide></package>".

Definition xhtml : string := "application/xhtml+xml".

Definition contentDom : QDomDocument :=
  [el "package" []
     [el "metadata" []
        [dc "creator" [] [TextNode "A"];
         dc "creator" [] [TextNode "B"];
         dc "title" [] [TextNode "T"];
         el "meta" [("name", "cover"); ("content", "img")] [];
         ElementNode "foo" "x" ∅ [TextNode "z"]];
      el "manifest" []
        [el "item" [("id", "c1"); ("href", "chap1.xhtml"); ("media-type", xhtml)] [];
         el "item" [("id", "c2"); ("href", "chap2.xhtml"); ("media-type", xhtml)] [];
         el "item" [("id", "c3"); ("href", "chap3.xhtml"); ("media-type", xhtml)] [];
         el "item" [("id", "img"); ("href", "cover.png"); ("media-type", "image/png")] [];
         el "item" [("id", "ncx"); ("href", "../toc.ncx");
                    ("media-type", "application/x-dtbncx+xml")] []];
      el "spine" [("toc", "ncx")]
        [el "itemref" [("idref", "c2")] [];
         el "itemref" [("idref", "nope")] [];
         el "itemref" [] [];
         el "itemref" [("idref", "c1")] []];
      el "guide" []
        [el "reference" [("type", "cover"); ("title", "Cover"); ("href", "cover.xhtml")] [];
         el "reference" [("type", "endnotes"); ("title", "Notes"); ("href", "notes.xhtml")] [];
         el "reference" [("type", "toc"); ("href", "toc.xhtml")] []]]].

(** toc.ncx: two [meta] elements in the head, three navPoints whose play
    orders are out of document order, repeated and not numeric. *)
Definition tocText : string :=
  "<ncx version='2005-1' xml:lang='en'><head><meta name='dtb:uid' content='u1'/><meta name='dtb:depth' content='1'/></head><docTitle><text>T</text></docTitle><navMap><navPoint id='n2' playOrder='2'><navLabel><text>Two</text></navLabel><content src='chap2.xhtml'/></navPoint><navPoint id='n1' playOrder='1'><navLabel><text>One</text></navLabel><content src='chap1.xhtml'/></navPoint><navPoint id='n2b' playOrder='2'><navLabel><text>Two again</text></navLabel><content src='chap3.xhtml'/></navPoint><navPoint id='nx' playOrder='first'><navLabel><text>X</text></navLabel><content src='x.xhtml'/></navPoint></navMap></ncx>".

Definition navPointEl (id playOrder label src : string) : QDomNode :=
  el "navPoint" [("id", id); ("playOrder", playOrder)]
    [el "navLabel" [] [el "text" [] [TextNode label]];
     el "content" [("src", src)] []].

Definition tocDom : QDomDocument :=
  [el "ncx" [("version", "2005-1"); ("xml:lang", "en")]
     [el "head" []
        [el "meta" [("name", "dtb:uid"); ("content", "u1")] [];
         el "meta" [("name", "dtb:depth"); ("content", "1")] []];
      el "docTitle" [] [el "text" [] [TextNode "T"]];
      el "navMap" []
        [navPointEl "n2" "2" "Two" "chap2.xhtml";
         navPointEl "n1" "1" "One" "chap1.xhtml";
         navPointEl "n2b" "2" "Two again" "chap3.xhtml";
         navPointEl "nx" "first" "X" "x.xhtml"]]].

(** The XML reader: the fixture texts parse to their documents, in either
    mode since none but the package document uses a prefix and that one is
    only read with namespace processing; anything else is rejected and
    leaves an empty document. *)
Definition readXml (text : string) (namespaceProcessing : bool)
  : bool * QDomDocument :=
  if bool_decide (text = containerText) then (true, containerDom)
  else if bool_decide (text = contentText) then (true, contentDom)
  else if bool_decide (text = tocText) then (true, tocDom)
  else (false, []).

(** An archive from its entries; every listed entry opens. *)
Definition archiveOf (entries : list (string * string)) : QuaZip :=
  {| getFileNameList := entries.*1;
     readAll := λ name, (list_to_map entries : gmap string string) !! name |}.

Definition book : QuaZip :=
  archiveOf [("mimetype", "application/epub+zip");
             ("META-INF/container.xml", containerText);
             ("OEBPS/content.opf", contentText);
             ("toc.ncx", tocText)].

(** The same book without its mimetype entry. *)
Definition noMimetype : QuaZip :=
  archiveOf [("META-INF/container.xml", containerText);
             ("OEBPS/content.opf", contentText);
             ("toc.ncx", tocText)].

(** The same book with a mimetype entry of the wrong content. *)
Definition wrongMimetype : QuaZip :=
  archiveOf [("mimetype", "text/plain");
             ("META-INF/container.xml", containerText);
             ("OEBPS/content.opf", contentText);
             ("toc.ncx", tocText)].

(** A package document that is not XML at all. *)
Definition garbage : QuaZip :=
  archiveOf [("mimetype", "application/epub+zip");
             ("META-INF/container.xml", containerText);
             ("OEBPS/content.opf", "not xml")].

(** A package document whose spine names one chapter twice and whose
    manifest holds an image the spine does not name. *)
Definition repeatedDom : QDomDocument :=
  [el "package" []
     [el "manifest" []
        [el "item" [("id", "c1"); ("href", "chap1.xhtml"); ("media-type", xhtml)] [];
         el "item" [("id", "img"); ("href", "cover.png"); ("media-type", "image/png")] []];
      el "spine" []
        [el "itemref" [("idref", "c1")] [];
         el "itemref" [("idref", "c1")] []]]].

Definition openArchive (path : string) : option QuaZip :=
  if bool_decide (path = "book.epub") then Some book
  else if bool_decide (path = "nomimetype.epub") then Some noMimetype
  else if bool_decide (path = "wrongmimetype.epub") then Some wrongMimetype
  else if bool_decide (path = "garbage.epub") then Some garbage
  else None.

Definition qt : Qt :=
  {| QuaZip_open := openArchive;
     setContent := readXml;
     cleanPath := cleanSlashPath;
     parseInt := decimalInt |}.

End Fixture.


(** ** The specification's vocabulary

    Definitions that follow the words of the specification, to state what
    the parser above is compared with. *)

(** Appending a list of events to the trace. *)
Definition logAll (l : list Event) (s : EPubContainer) : EPubContainer :=
  foldl (λ acc e, log e acc) s l.

(** The [idref] attributes of the [itemref] elements of every [spine], in
    document order. *)
Definition spineIdrefs (document : QDomDocument) : list string :=
  flat_map (λ spineElement,
              List.map (λ n, attribute n "idref")
                       (elementsByTagName spineElement "itemref"))
           (documentElementsByTagName document "spine").

(** An [idref] resolves when it is not empty and names a manifest id. *)
Definition resolves (items : gmap string EPubItem) (r : string) : bool :=
  negb (isEmpty r) && bool_decide (r ∈ dom items).

(** The [item] elements of every [manifest], in document order. *)
Definition manifestItems (document : QDomDocument) : list QDomNode :=
  flat_map (λ manifestElement, elementsByTagName manifestElement "item")
           (documentElementsByTagName document "manifest").

Definition validItem (n : QDomNode) : bool :=
  negb (isEmpty (attribute n "id")) && negb (isEmpty (attribute n "href")).

(** The ids some valid manifest item declares, and those declared with one
    of the document media types. *)
Definition manifestIds (document : QDomDocument) : list string :=
  List.map (λ n, attribute n "id") (List.filter validItem (manifestItems document)).

Definition isDocument (n : QDomNode) : bool :=
  validItem n && contains documentTypes (attribute n "media-type").

Definition documentIds (document : QDomDocument) : list string :=
  List.map (λ n, attribute n "id") (List.filter isDocument (manifestItems document)).

(** The item a valid manifest element is stored as, for the folder its
    href is resolved against. *)
Definition itemOf `{Qt} (folder : string) (n : QDomNode) : EPubItem :=
  {| mimetype := attribute n "media-type";
     path := cleanPath (folder +:+ attribute n "href") |}.

(** The partition the data model asks of the item registry. *)
Definition exactlyOne (s : EPubContainer) (id : string) : Prop :=
  (id ∈ m_orderedItems s ∧ (id ∉ m_unorderedItems s)) ∨
  ((id ∉ m_orderedItems s) ∧ id ∈ m_unorderedItems s).

Definition partitioned (s : EPubContainer) : Prop :=
  ∀ id, id ∈ dom (m_items s) → exactlyOne s id.

(** The kinds of metadata children and the entry each contributes;
    [creator] is the value stored under the key creator so far. *)
Inductive MetadataKind : Type :=
| MetaElement | DcDate | DcCreator | DcOther | Unsupported.

Definition metadataKind (n : QDomNode) : MetadataKind :=
  if bool_decide (tagName n = "meta") then MetaElement
  else if bool_decide (prefix n = "dc") then
    if bool_decide (tagName n = "date") then DcDate
    else if bool_decide (tagName n = "creator") then DcCreator
    else DcOther
  else Unsupported.

(** [l] joined by [sep], in order. *)
Definition joinWith (sep : string) (l : list string) : string :=
  match l with
  | [] => ""
  | x :: rest => foldl (λ acc y, acc +:+ sep +:+ y) x rest
  end.

Definition entryOf (n : QDomNode) (creator : string) : option (string * string) :=
  match metadataKind n with
  | MetaElement => Some (attribute n "name", attribute n "content")
  | DcDate => Some (attribute n "event", text n)
  | DcCreator => Some ("creator", joinWith "; " (List.filter (λ t, negb (isEmpty t)) [creator]
                                                 ++ [text n]))
  | DcOther => Some (tagName n, text n)
  | Unsupported => None
  end.

(** Leading empty texts belong to entries that were discarded. *)
Fixpoint dropEmpty (l : list string) : list string :=
  match l with
  | [] => []
  | x :: rest => if isEmpty x then dropEmpty rest else l
  end.

(** The names the enumeration of standard reference types recognises. *)
Definition standardNames : list string :=
  ["cover"; "title-page"; "toc"; "index"; "glossary"; "acknowledgements";
   "bibliography"; "colophon"; "copyright-page"; "dedication"; "epigraph";
   "foreword"; "loi"; "lot"; "notes"; "preface"; "text"].

(** The [full-path] attributes of the [rootfile] elements of a container
    document, in document order. *)
Definition rootfilePaths (document : QDomDocument) : list string :=
  List.map (λ n, attribute n "full-path")
           (documentElementsByTagName document "rootfile").

(** A candidate is usable when its path is not empty and its entry opens. *)
Definition usable (archive : QuaZip) (p : string) : bool :=
  negb (isEmpty p) && bool_decide (is_Some (readAll archive p)).

(** What the candidates before the first usable one leave in the trace. *)
Fixpoint candidateEvents (archive : QuaZip) (paths : list string) : list Event :=
  match paths with
  | [] => []
  | p :: rest =>
      if usable archive p then []
      else (if isEmpty p then QLOG_WARN InvalidRootFileEntry
            else errorHappened MalformedMetadata) :: candidateEvents archive rest
  end.

(** The package document of the archive at [path]: the document the XML
    reader leaves for the first usable candidate that container.xml names. *)
Definition packagePath `{Qt} (archive : QuaZip) : option string :=
  container ← readAll archive CONTAINER_FILE;
  List.find (usable archive) (rootfilePaths (setContent container false).2).

Definition packageDocument `{Qt} (path : string) : option QDomDocument :=
  archive ← QuaZip_open path;
  filepath ← packagePath archive;
  content ← readAll archive filepath;
  Some (setContent content true).2.

(** The navPoint a cursor stands on followed by its later navPoint
    siblings, and the key and value [parseToc] stores for a navPoint. *)
Definition siblingNavPoints (e : QDomElement) : list QDomNode :=
  match e with
  | None => []
  | Some (n, following) => n :: List.filter (named "navPoint") following
  end.

Definition playOrderOf `{Qt} (n : QDomNode) : Z :=
  default 0%Z (parseInt (attribute n "playOrder")).

Definition navPointOf (n : QDomNode) : EPubNavPoint :=
  {| classname := attribute n "class";
     navId := attribute n "id";
     label := text (elem (findElement "navLabel" (childNodes n)));
     src := attribute (elem (findElement "content" (childNodes n))) "src" |}.

(** One navPoint stored under its play order. *)
Definition insertNavPoint `{Qt} (m : QMap EPubNavPoint) (n : QDomNode)
  : QMap EPubNavPoint :=
  QMap_insert (playOrderOf n) (navPointOf n) m.

(** The navPoint children of the navMap of a table-of-contents document. *)
Definition navMapPoints (document : QDomDocument) : list QDomNode :=
  List.filter (named "navPoint")
    (childNodes (elem (firstChildElement (documentElement document) "navMap"))).

(** The meta children of the head of a table-of-contents document. *)
Definition headMetas (document : QDomDocument) : list QDomNode :=
  List.filter (named "meta")
    (childNodes (elem (firstChildElement (documentElement document) "head"))).

(** The last entry for a key among a list of navPoints. *)
Definition lastWithPlayOrder `{Qt} (k : Z) (l : list QDomNode) : option QDomNode :=
  List.find (λ n, Z.eqb (playOrderOf n) k) (rev l).

(** ** More fixtures and vocabulary *)

Module Samples.

(** An image decoder that keeps the bytes it is given. *)
Definition gui : QtGui :=
  {| QImage := option string;
     nullImage := None;
     supportedMimeTypes := ["image/png"; "image/jpeg"];
     fromData := λ data, Some data |}.

(** The fixture book with the cover its manifest declares. *)
Definition album : QuaZip :=
  Fixture.archiveOf
    [("mimetype", "application/epub+zip");
     ("META-INF/container.xml", Fixture.containerText);
     ("OEBPS/content.opf", Fixture.contentText);
     ("OEBPS/cover.png", "cover bytes");
     ("toc.ncx", Fixture.tocText)].


(** A package document whose spine names a table of contents and whose
    guide has a reference of type toc and a spine item that is not linear. *)
Definition guidedDom : QDomDocument :=
  [Fixture.el "package" []
     [Fixture.el "manifest" []
        [Fixture.el "item" [("id", "c1"); ("href", "chap1.xhtml");
                            ("media-type", Fixture.xhtml)] [];
         Fixture.el "item" [("id", "ncx"); ("href", "toc.ncx");
                            ("media-type", "application/x-dtbncx+xml")] []];
      Fixture.el "spine" [("toc", "ncx")]
        [Fixture.el "itemref" [("idref", "c1"); ("linear", "no")] []];
      Fixture.el "guide" []
        [Fixture.el "reference" [("type", "toc"); ("title", "Contents");
                                 ("href", "contents.xhtml")] []]]].

End Samples.

(** The name of a standard reference type. *)
Definition standardName (t : StandardType) : string :=
  match t with
  | CoverPage => "cover" | TitlePage => "title-page" | TableOfContents => "toc"
  | Index => "index" | Glossary => "glossary"
  | Acknowledgements => "acknowledgements" | Bibliography => "bibliography"
  | Colophon => "colophon" | CopyrightPage => "copyright-page"
  | Dedication => "dedication" | Epigraph => "epigraph" | Foreword => "foreword"
  | ListOfIllustrations => "loi" | ListOfTables => "lot" | Notes => "notes"
  | Preface => "preface" | Text => "text" | Other => ""
  end.


(** The [spine] elements, the [itemref] elements below them and the
    [reference] elements of every [guide], in document order. *)
Definition spineElements (document : QDomDocument) : list QDomNode :=
  documentElementsByTagName document "spine".

Definition spineItemrefs (document : QDomDocument) : list QDomNode :=
  flat_map (λ spineElement, elementsByTagName spineElement "itemref")
           (spineElements document).

Definition guideReferences (document : QDomDocument) : list QDomNode :=
  flat_map (λ guideElement, elementsByTagName guideElement "reference")
           (documentElementsByTagName document "guide").

(** A guide reference that is complete, and one that is of a given type. *)
Definition validReference (n : QDomNode) : bool :=
  negb (isEmpty (attribute n "href")) && negb (isEmpty (attribute n "title"))
  && negb (isEmpty (attribute n "type")).

Definition referenceOfType (t : StandardType) (n : QDomNode) : bool :=
  validReference n && bool_decide (typeFromString (attribute n "type") = t).

Definition referenceOf (n : QDomNode) : EPubPageReference :=
  {| target := attribute n "href"; title := attribute n "title" |}.

(** A spine whose [toc] attribute names a manifest id. *)
Definition namesToc (items : gmap string EPubItem) (spineElement : QDomNode)
  : bool :=
  negb (isEmpty (attribute spineElement "toc")) &&
  bool_decide (attribute spineElement "toc" ∈ dom items).

(** [s'] is [s] with warnings appended to the trace. *)
Definition warnsOnly (s s' : EPubContainer) : Prop :=
  ∃ ws, events s' = events s ++ ws ∧ Forall (λ e, isWarning e = true) ws.


(** * Properties *)

(** ** Strings and small facts *)

Lemma isEmpty_true (s : string) : isEmpty s = true ↔ s = "".
Proof. unfold isEmpty. apply bool_decide_eq_true. Qed.

Lemma isEmpty_false (s : string) : isEmpty s = false ↔ s ≠ "".
Proof. unfold isEmpty. apply bool_decide_eq_false. Qed.

Lemma append_nonempty_l (a b : string) : a ≠ "" → a +:+ b ≠ "".
Proof. destruct a; [congruence | discriminate]. Qed.

Lemma subscript_value (m : gmap string string) (k : string) :
  (subscript m k).1 = default "" (m !! k).
Proof. unfold subscript. by destruct (m !! k). Qed.

Lemma subscript_lookup (m : gmap string string) (k k' : string) :
  default "" ((subscript m k).2 !! k') = default "" (m !! k').
Proof.
  unfold subscript. destruct (m !! k) eqn:E; simpl; [done |].
  destruct (decide (k = k')) as [-> | Hne].
  - by rewrite lookup_insert_eq, E.
  - by rewrite lookup_insert_ne.
Qed.

Lemma subscript_insert (m : gmap string string) (k v : string) :
  <[k := v]> (subscript m k).2 = <[k := v]> m.
Proof.
  unfold subscript. destruct (m !! k); simpl; [done |].
  apply insert_insert_eq.
Qed.

(** ** Metadata *)

Lemma joinWith_creator (creator t : string) :
  joinWith "; " (List.filter (λ t, negb (isEmpty t)) [creator] ++ [t]) =
  if isEmpty creator then t else creator +:+ "; " +:+ t.
Proof. simpl. by destruct (isEmpty creator). Qed.

Lemma parseMetadataItem_spec (n : QDomNode) (s : EPubContainer) :
  let r := parseMetadataItem n s in
  match entryOf n (metadata s "creator") with
  | None => r = (false, warn (UnsupportedMetadataTag (tagName n)) s)
  | Some (name, value) =>
      if isEmpty name || isEmpty value then
        r.1 = false ∧ events r.2 = events s ∧
        (∀ k, metadata r.2 k = metadata s k) ∧
        m_othermetatags r.2 = m_othermetatags s
      else
        r.1 = true ∧ events r.2 = events s ∧
        m_metadata r.2 = <[name := value]> (m_metadata s)
  end.
Proof.
  unfold parseMetadataItem, entryOf, metadataKind. cbv zeta.
  destruct (bool_decide (tagName n = "meta")); simpl.
  { destruct (isEmpty (attribute n "name") || isEmpty (attribute n "content"));
      [done |].
    by destruct (bool_decide (itemNodes (attributes n) = ∅)). }
  destruct (bool_decide (prefix n = "dc")); simpl; [| done].
  destruct (bool_decide (tagName n = "date")); simpl.
  { destruct (isEmpty (attribute n "event") || isEmpty (text n)); [done |].
    by destruct (bool_decide (itemNodes (attributes n) = ∅)). }
  destruct (bool_decide (tagName n = "creator")) eqn:Hc; simpl.
  - apply bool_decide_eq_true in Hc.
    pose proof (subscript_value (m_metadata s) "creator") as Hv.
    pose proof (subscript_lookup (m_metadata s) "creator") as Hl.
    pose proof (subscript_insert (m_metadata s) "creator") as Hi.
    destruct (subscript (m_metadata s) "creator") as [current md]; simpl in *.
    fold (metadata s "creator") in Hv. subst current.
    destruct (isEmpty (metadata s "creator")) eqn:He; simpl.
    + rewrite Hc; simpl.
      destruct (isEmpty (text n)); simpl; [by split_and! |].
      destruct (bool_decide (itemNodes (attributes n) = ∅)); simpl; by rewrite Hi.
    + rewrite Hc; simpl.
      apply isEmpty_false in He.
      assert (isEmpty (metadata s "creator" +:+ "; " +:+ text n) = false) as ->.
      { apply isEmpty_false. by apply append_nonempty_l. }
      destruct (bool_decide (itemNodes (attributes n) = ∅)); simpl; by rewrite Hi.
  - destruct (isEmpty (tagName n) || isEmpty (text n)); [done |].
    by destruct (bool_decide (itemNodes (attributes n) = ∅)).
Qed.

(** A creator element on a container whose creator value is [c] leaves
    the value the specification's entry names. *)
Lemma parseMetadataItem_creator (n : QDomNode) (s : EPubContainer) :
  metadataKind n = DcCreator →
  metadata (parseMetadataItem n s).2 "creator" =
  if isEmpty (metadata s "creator") then text n
  else metadata s "creator" +:+ "; " +:+ text n.
Proof.
  intros Hk. pose proof (parseMetadataItem_spec n s) as Hs. cbv zeta in Hs.
  unfold entryOf in Hs. rewrite Hk, joinWith_creator in Hs. simpl in Hs.
  destruct (isEmpty (metadata s "creator")) eqn:He.
  - destruct (isEmpty (text n)) eqn:Ht.
    + destruct Hs as (_ & _ & Hm & _). rewrite Hm.
      apply isEmpty_true in He, Ht. congruence.
    + destruct Hs as (_ & _ & Hm). unfold metadata at 1. rewrite Hm.
      by rewrite lookup_insert_eq.
  - apply isEmpty_false in He.
    assert (isEmpty (metadata s "creator" +:+ "; " +:+ text n) = false) as Hne.
    { apply isEmpty_false. by apply append_nonempty_l. }
    rewrite Hne in Hs. destruct Hs as (_ & _ & Hm).
    unfold metadata at 1. rewrite Hm. by rewrite lookup_insert_eq.
Qed.

Lemma forEach_cons f (n : QDomNode) (l : list QDomNode) (s : EPubContainer) :
  forEach f (n :: l) s = forEach f l (f n s).2.
Proof. reflexivity. Qed.

Lemma forEach_app f (l1 l2 : list QDomNode) (s : EPubContainer) :
  forEach f (l1 ++ l2) s = forEach f l2 (forEach f l1 s).
Proof. unfold forEach. apply foldl_app. Qed.

Lemma creators_nonempty (creators : list QDomNode) (s : EPubContainer) :
  Forall (λ n, metadataKind n = DcCreator) creators →
  metadata s "creator" ≠ "" →
  metadata (forEach parseMetadataItem creators s) "creator" =
  foldl (λ acc y, acc +:+ "; " +:+ y) (metadata s "creator")
        (List.map text creators).
Proof.
  intros Hall. revert s.
  induction Hall as [| n l Hn _ IH]; intros s Hne; [done |].
  rewrite forEach_cons. simpl.
  pose proof (parseMetadataItem_creator n s Hn) as Hc.
  apply isEmpty_false in Hne as He. rewrite He in Hc.
  rewrite IH; rewrite Hc; [done |].
  by apply append_nonempty_l.
Qed.

Lemma creators_joined (creators : list QDomNode) (s : EPubContainer) :
  Forall (λ n, metadataKind n = DcCreator) creators →
  metadata s "creator" = "" →
  metadata (forEach parseMetadataItem creators s) "creator" =
  joinWith "; " (dropEmpty (List.map text creators)).
Proof.
  intros Hall. revert s.
  induction Hall as [| n l Hn Hl IH]; intros s Hs; [done |].
  rewrite forEach_cons. simpl.
  pose proof (parseMetadataItem_creator n s Hn) as Hc.
  rewrite Hs in Hc. simpl in Hc.
  destruct (isEmpty (text n)) eqn:Ht.
  - apply IH. apply isEmpty_true in Ht. congruence.
  - simpl. rewrite creators_nonempty; [by rewrite Hc | done |].
    rewrite Hc. by apply isEmpty_false.
Qed.

(** C5: a child of a metadata element named meta contributes (name
    attribute, content attribute); a dc date contributes (event attribute,
    text); a dc creator contributes under the key creator the value so far
    and its own text joined by "; "; any other dc element contributes (tag
    name, text); anything else is rejected with a warning and the container
    is otherwise unchanged.  An entry with an empty name or value is
    discarded: no key reads differently afterwards.  A run of creators
    leaves their texts joined by "; " in encounter order (the leading
    creators with an empty text being discarded entries), so the texts A
    then B leave the value A; B. *)
Theorem parseMetadataItem_classification :
  (∀ (n : QDomNode) (s : EPubContainer),
     let r := parseMetadataItem n s in
     match entryOf n (metadata s "creator") with
     | None => r = (false, warn (UnsupportedMetadataTag (tagName n)) s)
     | Some (name, value) =>
         if isEmpty name || isEmpty value then
           r.1 = false ∧ events r.2 = events s ∧
           (∀ k, metadata r.2 k = metadata s k) ∧
           m_othermetatags r.2 = m_othermetatags s
         else
           r.1 = true ∧ events r.2 = events s ∧
           m_metadata r.2 = <[name := value]> (m_metadata s)
     end) ∧
  (∀ (creators : list QDomNode) (s : EPubContainer),
     Forall (λ n, metadataKind n = DcCreator) creators →
     metadata s "creator" = "" →
     metadata (forEach parseMetadataItem creators s) "creator" =
     joinWith "; " (dropEmpty (List.map text creators))) ∧
  metadata (forEach parseMetadataItem
              [ElementNode "creator" "dc" ∅ [TextNode "A"];
               ElementNode "creator" "dc" ∅ [TextNode "B"]]
              newEPubContainer) "creator" = "A; B".
Proof.
  split_and!.
  - apply parseMetadataItem_spec.
  - apply creators_joined.
  - reflexivity.
Qed.

(** ** Guide references *)

Lemma typeFromString_standard (name : string) :
  typeFromString name ≠ Other ↔ name ∈ standardNames.
Proof.
  unfold typeFromString, standardNames. rewrite !elem_of_cons, elem_of_nil.
  repeat (case_bool_decide; [split; [tauto | discriminate] |]).
  split; [congruence | tauto].
Qed.

Lemma parseGuideItem_spec (n : QDomNode) (s : EPubContainer) :
  let target := attribute n "href" in
  let title := attribute n "title" in
  let type := attribute n "type" in
  let reference := {| target := target; title := title |} in
  let r := parseGuideItem n s in
  if isEmpty target || isEmpty title || isEmpty type then
    r = (false, warn (InvalidGuideItem target title type) s)
  else if bool_decide (type ∈ standardNames) then
    r.1 = true ∧ events r.2 = events s ∧
    m_standardReferences r.2 !! typeFromString type = Some reference ∧
    (∀ t, t ≠ typeFromString type →
          m_standardReferences r.2 !! t = m_standardReferences s !! t) ∧
    m_otherReferences r.2 = m_otherReferences s
  else
    r.1 = true ∧ events r.2 = events s ∧
    m_otherReferences r.2 !! type = Some reference ∧
    (∀ t, t ≠ type → m_otherReferences r.2 !! t = m_otherReferences s !! t) ∧
    m_standardReferences r.2 = m_standardReferences s.
Proof.
  cbv zeta. unfold parseGuideItem.
  destruct (isEmpty (attribute n "href") || isEmpty (attribute n "title")
            || isEmpty (attribute n "type")); [done |].
  pose proof (typeFromString_standard (attribute n "type")) as Hstd.
  case_bool_decide as Hin.
  - apply Hstd in Hin. rewrite bool_decide_eq_false_2 by done. simpl.
    split_and!; try done.
    + by rewrite lookup_insert_eq.
    + intros t Ht. by rewrite lookup_insert_ne.
  - assert (typeFromString (attribute n "type") = Other) as Ho.
    { destruct (decide (typeFromString (attribute n "type") = Other)); [done |].
      exfalso. apply Hin, Hstd. done. }
    rewrite bool_decide_eq_true_2 by done. simpl.
    split_and!; try done.
    + by rewrite lookup_insert_eq.
    + intros t Ht. by rewrite lookup_insert_ne.
Qed.

(** C6: a guide reference lacking href, title or type is skipped with a
    warning.  Otherwise a type among the standard names is stored in the
    standard map under its enumeration value, replacing what was there and
    leaving the other bucket alone, and any other type string is stored in
    the other bucket under that string, leaving the standard map alone.
    The type cover is the cover page; the standard names are exactly the
    strings the enumeration recognises and none of them is the sentinel. *)
Theorem parseGuideItem_classification :
  (∀ (n : QDomNode) (s : EPubContainer),
     let target := attribute n "href" in
     let title := attribute n "title" in
     let type := attribute n "type" in
     let reference := {| target := target; title := title |} in
     let r := parseGuideItem n s in
     if isEmpty target || isEmpty title || isEmpty type then
       r = (false, warn (InvalidGuideItem target title type) s)
     else if bool_decide (type ∈ standardNames) then
       r.1 = true ∧ events r.2 = events s ∧
       m_standardReferences r.2 !! typeFromString type = Some reference ∧
       (∀ t, t ≠ typeFromString type →
             m_standardReferences r.2 !! t = m_standardReferences s !! t) ∧
       m_otherReferences r.2 = m_otherReferences s
     else
       r.1 = true ∧ events r.2 = events s ∧
       m_otherReferences r.2 !! type = Some reference ∧
       (∀ t, t ≠ type → m_otherReferences r.2 !! t = m_otherReferences s !! t) ∧
       m_standardReferences r.2 = m_standardReferences s) ∧
  typeFromString "cover" = CoverPage ∧
  List.map typeFromString standardNames =
    [CoverPage; TitlePage; TableOfContents; Index; Glossary; Acknowledgements;
     Bibliography; Colophon; CopyrightPage; Dedication; Epigraph; Foreword;
     ListOfIllustrations; ListOfTables; Notes; Preface; Text] ∧
  (∀ name, typeFromString name = Other ↔ name ∉ standardNames).
Proof.
  split_and!.
  - apply parseGuideItem_spec.
  - reflexivity.
  - reflexivity.
  - intros name. pose proof (typeFromString_standard name) as Hs.
    destruct (decide (typeFromString name = Other)) as [He | Hne].
    + split; [| done]. intros _ Hin. by apply Hs in Hin.
    + split; [done |]. intros Hn. exfalso. apply Hn, Hs. done.
Qed.

(** ** Loops and the members they leave alone *)

Lemma forEach_invariant {A : Type} (proj : EPubContainer → A) f
  (l : list QDomNode) (s : EPubContainer) :
  (∀ n s, proj (f n s).2 = proj s) → proj (forEach f l s) = proj s.
Proof.
  intros Hf. revert s. induction l as [| n l IH]; intros s; [done |].
  rewrite forEach_cons, IH. apply Hf.
Qed.

Lemma foldl_forEach f (g : QDomNode → list QDomNode) (l : list QDomNode)
  (s : EPubContainer) :
  foldl (λ acc x, forEach f (g x) acc) s l = forEach f (flat_map g l) s.
Proof.
  revert s. induction l as [| x l IH]; intros s; [done |].
  simpl. rewrite forEach_app. apply IH.
Qed.

Lemma logAll_app (l1 l2 : list Event) (s : EPubContainer) :
  logAll (l1 ++ l2) s = logAll l2 (logAll l1 s).
Proof. unfold logAll. apply foldl_app. Qed.

Lemma logAll_cons (e : Event) (l : list Event) (s : EPubContainer) :
  logAll (e :: l) s = logAll l (log e s).
Proof. reflexivity. Qed.

Lemma events_logAll (l : list Event) (s : EPubContainer) :
  events (logAll l s) = events s ++ l.
Proof.
  revert s. induction l as [| e l IH]; intros s.
  - simpl. by rewrite app_nil_r.
  - rewrite logAll_cons, IH. simpl. by rewrite <- app_assoc.
Qed.

(** The metadata pass writes the metadata maps and the trace only. *)
Lemma parseMetadataItem_registry (n : QDomNode) (s : EPubContainer) :
  let s' := (parseMetadataItem n s).2 in
  m_items s' = m_items s ∧ m_orderedItems s' = m_orderedItems s ∧
  m_unorderedItems s' = m_unorderedItems s.
Proof.
  cbv zeta. unfold parseMetadataItem.
  repeat (case_match; simplify_eq/=); done.
Qed.

(** The guide pass writes the reference maps and the trace only. *)
Lemma parseGuideItem_registry (n : QDomNode) (s : EPubContainer) :
  let s' := (parseGuideItem n s).2 in
  m_items s' = m_items s ∧ m_orderedItems s' = m_orderedItems s ∧
  m_unorderedItems s' = m_unorderedItems s.
Proof.
  cbv zeta. unfold parseGuideItem.
  repeat (case_match; simplify_eq/=); done.
Qed.

(** ** The spine *)

Lemma parseSpineItem_spec (n : QDomNode) (s : EPubContainer) :
  let r := attribute n "idref" in
  parseSpineItem n s =
  if resolves (m_items s) r then
    (true, set_orderedItems (m_orderedItems s ++ [r])
             (set_unorderedItems (m_unorderedItems s ∖ {[r]}) s))
  else
    (false, warn (if isEmpty r then InvalidSpineItem else UnableToFindItem r) s).
Proof.
  cbv zeta. unfold parseSpineItem, resolves.
  destruct (isEmpty (attribute n "idref")); simpl; [done |].
  by destruct (bool_decide (attribute n "idref" ∈ dom (m_items s))).
Qed.

Lemma parseSpineItems_spec (l : list QDomNode) (s : EPubContainer) :
  let s' := forEach parseSpineItem l s in
  let resolved := List.filter (resolves (m_items s))
                              (List.map (λ n, attribute n "idref") l) in
  m_items s' = m_items s ∧
  m_orderedItems s' = m_orderedItems s ++ resolved ∧
  m_unorderedItems s' = m_unorderedItems s ∖ list_to_set resolved.
Proof.
  cbv zeta. revert s. induction l as [| n l IH]; intros s.
  { simpl. split_and!; [done | by rewrite app_nil_r | set_solver]. }
  rewrite forEach_cons. destruct (IH (parseSpineItem n s).2) as (Hi & Ho & Hu).
  rewrite Hi, Ho, Hu. rewrite parseSpineItem_spec. simpl.
  destruct (resolves (m_items s) (attribute n "idref")); simpl.
  - split_and!; [done | by rewrite <- app_assoc | set_solver].
  - done.
Qed.

Section ParserFacts.
Context `{Qt}.

Lemma parseSpineNode_spec (spineElement : QDomNode) (s : EPubContainer) :
  let s' := parseSpineNode spineElement s in
  let resolved :=
    List.filter (resolves (m_items s))
      (List.map (λ n, attribute n "idref")
                (elementsByTagName spineElement "itemref")) in
  m_items s' = m_items s ∧
  m_orderedItems s' = m_orderedItems s ++ resolved ∧
  m_unorderedItems s' = m_unorderedItems s ∖ list_to_set resolved.
Proof.
  cbv zeta. unfold parseSpineNode.
  match goal with |- context [forEach parseSpineItem ?l ?s1] =>
    pose proof (parseSpineItems_spec l s1) as Hs end.
  cbv zeta in Hs.
  destruct (negb (isEmpty (attribute spineElement "toc")) &&
            bool_decide (attribute spineElement "toc" ∈ dom (m_items s)));
    exact Hs.
Qed.

Lemma parseSpineNodes_spec (document : QDomDocument) (s : EPubContainer) :
  let s' := parseSpineNodes document s in
  let resolved := List.filter (resolves (m_items s)) (spineIdrefs document) in
  m_items s' = m_items s ∧
  m_orderedItems s' = m_orderedItems s ++ resolved ∧
  m_unorderedItems s' = m_unorderedItems s ∖ list_to_set resolved.
Proof.
  cbv zeta. unfold parseSpineNodes, spineIdrefs.
  generalize (documentElementsByTagName document "spine") as spines.
  intros spines. revert s. induction spines as [| sp spines IH]; intros s.
  { simpl. split_and!; [done | by rewrite app_nil_r | set_solver]. }
  simpl. destruct (IH (parseSpineNode sp s)) as (Hi & Ho & Hu).
  destruct (parseSpineNode_spec sp s) as (Hi1 & Ho1 & Hu1).
  rewrite Hi, Ho, Hu, Hi1, Ho1, Hu1. rewrite List.filter_app.
  split_and!; [done | by rewrite <- app_assoc |].
  rewrite list_to_set_app_L. set_solver.
Qed.

End ParserFacts.

(** ** The manifest *)

Section ManifestFacts.
Context `{Qt}.

Lemma parseManifestItem_spec (n : QDomNode) (folder : string)
  (s : EPubContainer) :
  let id := attribute n "id" in
  parseManifestItem n folder s =
  if validItem n then
    let s1 := set_items (<[id := itemOf folder n]> (m_items s)) s in
    (true, if isDocument n
           then set_unorderedItems ({[id]} ∪ m_unorderedItems s) s1 else s1)
  else (false, warn InvalidItem s).
Proof.
  cbv zeta. unfold parseManifestItem, validItem, isDocument, validItem, itemOf.
  destruct (isEmpty (attribute n "id")); simpl; [done |].
  destruct (isEmpty (attribute n "href")); simpl; [done |].
  by destruct (contains documentTypes (attribute n "media-type")).
Qed.

Lemma parseManifestItems_spec (folder : string) (l : list QDomNode)
  (s : EPubContainer) :
  let s' := forEach (λ n, parseManifestItem n folder) l s in
  let ids p := List.map (λ n, attribute n "id") (List.filter p l) in
  m_orderedItems s' = m_orderedItems s ∧
  dom (m_items s') = dom (m_items s) ∪ list_to_set (ids validItem) ∧
  m_unorderedItems s' = m_unorderedItems s ∪ list_to_set (ids isDocument).
Proof.
  cbv zeta. revert s. induction l as [| n l IH]; intros s.
  { simpl. split_and!; [done | set_solver | set_solver]. }
  rewrite forEach_cons.
  destruct (IH (parseManifestItem n folder s).2) as (Ho & Hi & Hu).
  rewrite Ho, Hi, Hu, parseManifestItem_spec. cbv zeta. simpl.
  destruct (validItem n) eqn:Hv, (isDocument n) eqn:Hd; simpl.
  - split_and!; [done | rewrite dom_insert_L; set_solver | set_solver].
  - split_and!; [done | rewrite dom_insert_L; set_solver | set_solver].
  - unfold isDocument in Hd. by rewrite Hv in Hd.
  - done.
Qed.

Lemma parseManifestItems_lookup_other (folder : string) (l : list QDomNode)
  (s : EPubContainer) (id : string) :
  id ∉ List.map (λ n, attribute n "id") (List.filter validItem l) →
  m_items (forEach (λ n, parseManifestItem n folder) l s) !! id =
  m_items s !! id.
Proof.
  revert s. induction l as [| n l IH]; intros s Hid; [done |].
  rewrite forEach_cons. simpl in Hid.
  rewrite parseManifestItem_spec. cbv zeta.
  destruct (validItem n) eqn:Hv; simpl in *.
  - apply not_elem_of_cons in Hid as [Hne Hid]. rewrite IH by done.
    destruct (isDocument n); simpl; by rewrite lookup_insert_ne.
  - by rewrite IH.
Qed.

(** Every item the pass stores has the path its element resolves to. *)
Lemma parseManifestItems_stored (folder : string) (l : list QDomNode)
  (s : EPubContainer) (id : string) (item : EPubItem) :
  m_items (forEach (λ n, parseManifestItem n folder) l s) !! id = Some item →
  m_items s !! id = Some item ∨
  ∃ n, n ∈ l ∧ validItem n = true ∧ attribute n "id" = id ∧
       item = itemOf folder n.
Proof.
  revert s. induction l as [| n l IH]; intros s Hl; [by left |].
  rewrite forEach_cons in Hl. apply IH in Hl as [Hl | (n' & Hin & Hv & Hid & Hit)].
  - rewrite parseManifestItem_spec in Hl. cbv zeta in Hl.
    destruct (validItem n) eqn:Hv; simpl in Hl; [| by left].
    assert (<[attribute n "id" := itemOf folder n]> (m_items s) !! id = Some item)
      as Hl' by (by destruct (isDocument n)).
    destruct (decide (attribute n "id" = id)) as [He | Hne].
    + subst id. rewrite lookup_insert_eq in Hl'. right. exists n.
      split_and!; [left | done | done | congruence].
    + rewrite lookup_insert_ne in Hl' by done. by left.
  - right. exists n'. split_and!; [by right | done | done | done].
Qed.

(** An element that no later valid element shares its id with is stored. *)
Lemma parseManifestItems_declared (folder : string) (l1 l2 : list QDomNode)
  (n : QDomNode) (s : EPubContainer) :
  validItem n = true →
  attribute n "id" ∉ List.map (λ n, attribute n "id") (List.filter validItem l2) →
  m_items (forEach (λ n, parseManifestItem n folder) (l1 ++ n :: l2) s)
    !! attribute n "id" = Some (itemOf folder n).
Proof.
  intros Hv Hl2. rewrite forEach_app, forEach_cons.
  rewrite parseManifestItems_lookup_other by done.
  rewrite parseManifestItem_spec. cbv zeta. rewrite Hv.
  destruct (isDocument n); simpl; by rewrite lookup_insert_eq.
Qed.

Lemma parseManifestNodes_forEach (document : QDomDocument) (folder : string)
  (s : EPubContainer) :
  parseManifestNodes document folder s =
  forEach (λ n, parseManifestItem n folder) (manifestItems document) s.
Proof. unfold parseManifestNodes, manifestItems. apply foldl_forEach. Qed.

Lemma parseMetadataNodes_registry (document : QDomDocument) (s : EPubContainer) :
  let s' := parseMetadataNodes document s in
  m_items s' = m_items s ∧ m_orderedItems s' = m_orderedItems s ∧
  m_unorderedItems s' = m_unorderedItems s.
Proof.
  cbv zeta. unfold parseMetadataNodes. rewrite foldl_forEach.
  split_and!;
    (apply (forEach_invariant _ parseMetadataItem); intros n s0;
     apply (parseMetadataItem_registry n s0)).
Qed.

Lemma parseGuideNodes_registry (document : QDomDocument) (s : EPubContainer) :
  let s' := parseGuideNodes document s in
  m_items s' = m_items s ∧ m_orderedItems s' = m_orderedItems s ∧
  m_unorderedItems s' = m_unorderedItems s.
Proof.
  cbv zeta. unfold parseGuideNodes. rewrite foldl_forEach.
  split_and!;
    (apply (forEach_invariant _ parseGuideItem); intros n s0;
     apply (parseGuideItem_registry n s0)).
Qed.

(** The registry a package document leaves behind. *)
Lemma parsePackageDocument_registry (document : QDomDocument)
  (filepath : string) (s : EPubContainer) :
  let s' := parsePackageDocument document filepath s in
  let s2 := parseManifestNodes document (contentFileFolder filepath) s in
  let resolved := List.filter (resolves (m_items s')) (spineIdrefs document) in
  m_items s' = m_items s2 ∧
  dom (m_items s') = dom (m_items s) ∪ list_to_set (manifestIds document) ∧
  m_orderedItems s' = m_orderedItems s ++ resolved ∧
  m_unorderedItems s' =
    (m_unorderedItems s ∪ list_to_set (documentIds document))
      ∖ list_to_set resolved.
Proof.
  cbv zeta. unfold parsePackageDocument.
  destruct (parseGuideNodes_registry document
    (parseSpineNodes document
       (parseManifestNodes document (contentFileFolder filepath)
          (parseMetadataNodes document s)))) as (Hgi & Hgo & Hgu).
  rewrite Hgi, Hgo, Hgu.
  destruct (parseSpineNodes_spec document
    (parseManifestNodes document (contentFileFolder filepath)
       (parseMetadataNodes document s))) as (Hsi & Hso & Hsu).
  rewrite Hsi, Hso, Hsu.
  rewrite !parseManifestNodes_forEach.
  destruct (parseManifestItems_spec (contentFileFolder filepath)
    (manifestItems document) (parseMetadataNodes document s)) as (Hmo & Hmi & Hmu).
  rewrite Hmo, Hmu.
  destruct (parseMetadataNodes_registry document s) as (Hdi & Hdo & Hdu).
  rewrite Hdo, Hdu.
  assert (m_items (forEach (λ n, parseManifestItem n (contentFileFolder filepath))
                     (manifestItems document) (parseMetadataNodes document s)) =
          m_items (forEach (λ n, parseManifestItem n (contentFileFolder filepath))
                     (manifestItems document) s)) as Hsame.
  { generalize (manifestItems document) as l. intros l.
    revert Hdi. generalize (parseMetadataNodes document s) as s1. clear.
    intros s1. revert s s1. induction l as [| n l IH]; intros s s1 Hi; [done |].
    rewrite !forEach_cons. apply IH. rewrite !parseManifestItem_spec.
    cbv zeta. destruct (validItem n); simpl; [| done].
    destruct (isDocument n); simpl; by rewrite Hi. }
  split_and!; try done.
  rewrite Hmi, Hdi. done.
Qed.

End ManifestFacts.

(** ** The item registry after a package document *)

Lemma elem_of_resolved (items : gmap string EPubItem) (l : list string)
  (id : string) :
  id ∈ List.filter (resolves items) l ↔ id ∈ l ∧ id ≠ "" ∧ id ∈ dom items.
Proof.
  rewrite list_elem_of_In, List.filter_In, <- list_elem_of_In.
  unfold resolves. rewrite andb_true_iff, negb_true_iff, isEmpty_false.
  rewrite bool_decide_eq_true. tauto.
Qed.

Lemma manifestIds_nonempty (document : QDomDocument) (id : string) :
  id ∈ manifestIds document → id ≠ "".
Proof.
  unfold manifestIds. rewrite list_elem_of_In, List.in_map_iff.
  intros (n & <- & Hin). apply List.filter_In in Hin as [_ Hv].
  unfold validItem in Hv. apply andb_true_iff in Hv as [Hv _].
  by apply negb_true_iff, isEmpty_false in Hv.
Qed.

Lemma documentIds_manifestIds (document : QDomDocument) (id : string) :
  id ∈ documentIds document → id ∈ manifestIds document.
Proof.
  unfold documentIds, manifestIds. rewrite !list_elem_of_In, !List.in_map_iff.
  intros (n & <- & Hin). exists n. split; [done |].
  apply List.filter_In in Hin as [Hin Hd]. apply List.filter_In. split; [done |].
  unfold isDocument in Hd. by apply andb_true_iff in Hd as [Hd _].
Qed.

Lemma NoDup_List_filter {A : Type} (f : A → bool) (l : list A) :
  NoDup l → NoDup (List.filter f l).
Proof.
  induction 1 as [| x l Hx Hl IH]; simpl; [constructor |].
  destruct (f x); [| done]. constructor; [| done].
  rewrite list_elem_of_In, List.filter_In, <- list_elem_of_In. tauto.
Qed.

Section RegistryFacts.
Context `{Qt}.

Lemma registry_after_package (document : QDomDocument) (filepath : string) :
  let s := parsePackageDocument document filepath newEPubContainer in
  (∀ id, id ∈ dom (m_items s) ↔ id ∈ manifestIds document) ∧
  (∀ id, id ∈ m_orderedItems s ↔
         id ∈ spineIdrefs document ∧ id ∈ manifestIds document) ∧
  (∀ id, id ∈ m_unorderedItems s ↔
         id ∈ documentIds document ∧ id ∉ spineIdrefs document) ∧
  m_orderedItems s =
    List.filter (resolves (m_items s)) (spineIdrefs document).
Proof.
  cbv zeta.
  destruct (parsePackageDocument_registry document filepath newEPubContainer)
    as (_ & Hd & Ho & Hu).
  cbv zeta in Ho, Hu. simpl in Hd, Ho, Hu.
  assert (∀ id, id ∈ dom (m_items (parsePackageDocument document filepath
                                     newEPubContainer))
                ↔ id ∈ manifestIds document) as Hdom.
  { intros id. rewrite Hd. set_solver. }
  assert (∀ id, id ∈ m_orderedItems (parsePackageDocument document filepath
                                       newEPubContainer)
                ↔ id ∈ spineIdrefs document ∧ id ∈ manifestIds document) as Hord.
  { intros id. rewrite Ho, elem_of_resolved, Hdom. split; [tauto |].
    intros [Hs Hm]. split_and!; try done. by eapply manifestIds_nonempty. }
  split_and!; try done.
  intros id. rewrite Hu, elem_of_difference, elem_of_union, !elem_of_list_to_set.
  rewrite elem_of_resolved, Hdom. split.
  - intros [[Hemp | Hdoc] Hnot]; [set_solver |]. split; [done |].
    intros Hs. apply Hnot. split_and!; try done.
    + eapply manifestIds_nonempty. by apply documentIds_manifestIds.
    + by apply documentIds_manifestIds.
  - intros [Hdoc Hnot]. split; [by right | tauto].
Qed.

End RegistryFacts.

(** C2, what the registry holds after a package document was parsed into a
    fresh container: no id is in both orderedIds and unorderedIds, and both
    hold manifest ids only; a manifest id that an itemref of the spine names
    or that some manifest item declares with a document media type is in
    exactly one of the two; a manifest id that is neither is in none of
    them; and orderedIds is the sequence of the resolving idrefs, one entry
    for every itemref, so it has no duplicates when the spine repeats no
    idref. *)
Theorem registry_partition `{Qt} (document : QDomDocument) (filepath : string) :
  let s := parsePackageDocument document filepath newEPubContainer in
  (∀ id, ¬ (id ∈ m_orderedItems s ∧ id ∈ m_unorderedItems s)) ∧
  (∀ id, id ∈ m_orderedItems s ∨ id ∈ m_unorderedItems s →
         id ∈ dom (m_items s)) ∧
  (∀ id, id ∈ dom (m_items s) →
         id ∈ spineIdrefs document ∨ id ∈ documentIds document →
         exactlyOne s id) ∧
  (∀ id, id ∈ dom (m_items s) →
         id ∉ spineIdrefs document → id ∉ documentIds document →
         (id ∉ m_orderedItems s) ∧ (id ∉ m_unorderedItems s)) ∧
  m_orderedItems s =
    List.filter (resolves (m_items s)) (spineIdrefs document) ∧
  (NoDup (spineIdrefs document) → NoDup (m_orderedItems s)).
Proof.
  cbv zeta. destruct (registry_after_package document filepath)
    as (Hdom & Hord & Hun & Heq).
  split_and!; try done; [| | | | rewrite Heq; apply NoDup_List_filter].
  - intros id [Ho Hu]. apply Hord in Ho. apply Hun in Hu. tauto.
  - intros id [Ho | Hu].
    + apply Hord in Ho. apply Hdom. tauto.
    + apply Hun in Hu. apply Hdom, documentIds_manifestIds. tauto.
  - intros id Hin Hor. unfold exactlyOne. rewrite Hord, Hun.
    apply Hdom in Hin.
    destruct (decide (id ∈ spineIdrefs document)); [left | right]; tauto.
  - intros id Hin Hs Hd. rewrite Hord, Hun. tauto.
Qed.

(** C2 fails as stated: the image of the fixture is a manifest id in
    neither collection, and the chapter named twice is twice in
    orderedIds. *)
Lemma registry_partition_counterexample :
  let s := @parsePackageDocument Fixture.qt Fixture.repeatedDom
             "OEBPS/content.opf" newEPubContainer in
  ¬ partitioned s ∧ ¬ NoDup (m_orderedItems s).
Proof.
  cbv zeta.
  assert (m_orderedItems (@parsePackageDocument Fixture.qt Fixture.repeatedDom
            "OEBPS/content.opf" newEPubContainer) = ["c1"; "c1"]) as Ho
    by (vm_compute; reflexivity).
  assert (m_unorderedItems (@parsePackageDocument Fixture.qt Fixture.repeatedDom
            "OEBPS/content.opf" newEPubContainer) = ∅) as Hu
    by (vm_compute; reflexivity).
  split.
  - intros Hp. specialize (Hp "img").
    destruct Hp as [[Hin _] | [_ Hin]].
    + apply elem_of_dom. vm_compute. eauto.
    + rewrite Ho in Hin. set_solver.
    + rewrite Hu in Hin. set_solver.
  - rewrite Ho. intros Hn. apply NoDup_cons in Hn as [Hn _]. set_solver.
Qed.

(** ** The folder of the package document *)

Lemma lastIndexOf_append (c : ascii) (d f : string) :
  lastIndexOf c f = (-1)%Z →
  lastIndexOf c (d +:+ String c f) = Z.of_nat (String.length d).
Proof.
  intros Hf. induction d as [| a d IH]; simpl.
  - rewrite Hf. by rewrite !bool_decide_eq_true_2.
  - rewrite IH. rewrite bool_decide_eq_false_2 by lia. lia.
Qed.

Lemma substring_zero (s : string) : String.substring 0 0 s = "".
Proof. by destruct s. Qed.

Lemma left_append (d f : string) (c : ascii) :
  left (Z.of_nat (String.length d) + 1) (d +:+ String c f) = d +:+ String c "".
Proof.
  unfold left.
  replace (Z.to_nat (Z.of_nat (String.length d) + 1)) with (S (String.length d))
    by lia.
  induction d as [| a d IH]; simpl.
  - by rewrite substring_zero.
  - by rewrite IH.
Qed.

Lemma contentFileFolder_directory (d f : string) :
  d ≠ "" → lastIndexOf "/" f = (-1)%Z →
  contentFileFolder (d +:+ "/" +:+ f) = d +:+ "/".
Proof.
  intros Hd Hf. unfold contentFileFolder.
  change (d +:+ "/" +:+ f) with (d +:+ String "/" f).
  rewrite lastIndexOf_append by done.
  destruct d as [| a d]; [done |].
  assert ((0 <? Z.of_nat (String.length (String a d)))%Z = true) as ->
    by (apply Z.ltb_lt; simpl; lia).
  apply left_append.
Qed.

Lemma contentFileFolder_none (p : string) :
  (lastIndexOf "/" p ≤ 0)%Z → contentFileFolder p = "".
Proof.
  intros Hp. unfold contentFileFolder.
  by assert ((0 <? lastIndexOf "/" p)%Z = false) as -> by (apply Z.ltb_ge; lia).
Qed.

(** C9, with the folder the code cuts off: for a package document at d/f,
    d not empty and f without a slash, the folder is d/; a path with no
    slash after its first character has the empty folder.  Every item a
    package document adds to the registry has the path
    cleanPath(folder + href) of the manifest element that declares it, and
    a valid manifest element whose id no later element repeats is stored
    under its id with that path. *)
Theorem manifest_href_resolution `{Qt} :
  (∀ d f : string,
     d ≠ "" → lastIndexOf "/" f = (-1)%Z →
     contentFileFolder (d +:+ "/" +:+ f) = d +:+ "/") ∧
  (∀ p : string, (lastIndexOf "/" p ≤ 0)%Z → contentFileFolder p = "") ∧
  (∀ (document : QDomDocument) (filepath : string) (s : EPubContainer)
     (id : string) (item : EPubItem),
     m_items (parsePackageDocument document filepath s) !! id = Some item →
     m_items s !! id = Some item ∨
     ∃ n, n ∈ manifestItems document ∧ validItem n = true ∧
          attribute n "id" = id ∧
          mimetype item = attribute n "media-type" ∧
          path item = cleanPath (contentFileFolder filepath +:+ attribute n "href")) ∧
  (∀ (document : QDomDocument) (filepath : string) (s : EPubContainer)
     (l1 l2 : list QDomNode) (n : QDomNode),
     manifestItems document = l1 ++ n :: l2 →
     validItem n = true →
     attribute n "id" ∉ List.map (λ n, attribute n "id") (List.filter validItem l2) →
     m_items (parsePackageDocument document filepath s) !! attribute n "id" =
     Some {| mimetype := attribute n "media-type";
             path := cleanPath (contentFileFolder filepath +:+ attribute n "href") |}).
Proof.
  split_and!.
  - apply contentFileFolder_directory.
  - apply contentFileFolder_none.
  - intros document filepath s id item Hl.
    destruct (parsePackageDocument_registry document filepath s) as (Hi & _).
    rewrite Hi, parseManifestNodes_forEach in Hl.
    apply parseManifestItems_stored in Hl as [Hl | (n & Hin & Hv & Hid & ->)];
      [by left | right].
    exists n. by split_and!.
  - intros document filepath s l1 l2 n Hm Hv Hl2.
    destruct (parsePackageDocument_registry document filepath s) as (Hi & _).
    rewrite Hi, parseManifestNodes_forEach, Hm.
    by apply parseManifestItems_declared.
Qed.

(** The round trip of the specification: chap1.xhtml declared in
    OEBPS/content.opf is stored as OEBPS/chap1.xhtml. *)
Lemma manifest_href_resolution_witness :
  Fixture.cleanSlashPath "OEBPS/chap1.xhtml" = "OEBPS/chap1.xhtml" ∧
  m_items (@parsePackageDocument Fixture.qt Fixture.contentDom
             "OEBPS/content.opf" newEPubContainer) !! "c1" =
  Some {| mimetype := "application/xhtml+xml"; path := "OEBPS/chap1.xhtml" |}.
Proof.
  split; [reflexivity |].
  pose proof (proj2 (proj2 (proj2 (@manifest_href_resolution Fixture.qt))))
    as Hdecl.
  specialize (Hdecl Fixture.contentDom "OEBPS/content.opf" newEPubContainer
                [] (List.tl (@manifestItems Fixture.contentDom))
                (Fixture.el "item" [("id", "c1"); ("href", "chap1.xhtml");
                                    ("media-type", Fixture.xhtml)] [])).
  assert (@manifestItems Fixture.contentDom =
          [] ++ Fixture.el "item" [("id", "c1"); ("href", "chap1.xhtml");
                                   ("media-type", Fixture.xhtml)] []
             :: List.tl (@manifestItems Fixture.contentDom)) as Hm
    by (vm_compute; reflexivity).
  assert (validItem (Fixture.el "item" [("id", "c1"); ("href", "chap1.xhtml");
                                        ("media-type", Fixture.xhtml)] []) = true)
    as Hv by (vm_compute; reflexivity).
  specialize (Hdecl Hm Hv).
  assert (attribute (Fixture.el "item" [("id", "c1"); ("href", "chap1.xhtml");
                                        ("media-type", Fixture.xhtml)] []) "id"
          ∉ List.map (λ n, attribute n "id")
              (List.filter validItem (List.tl (@manifestItems Fixture.contentDom))))
    as Hnot.
  { apply (proj1 (bool_decide_eq_false _)). vm_compute. reflexivity. }
  specialize (Hdecl Hnot).
  vm_compute in Hdecl. vm_compute. exact Hdecl.
Defined.

(** C9 fails as stated for a package document directly under a leading
    slash (d empty): the href is resolved against the empty folder and the
    stored path is chap1.xhtml, not cleanPath(/chap1.xhtml). *)
Lemma manifest_href_resolution_counterexample :
  path <$> (m_items (@parsePackageDocument Fixture.qt Fixture.contentDom
                       ("" +:+ "/" +:+ "content.opf") newEPubContainer) !! "c1")
  ≠ Some (@cleanPath Fixture.qt ("" +:+ "/" +:+ "chap1.xhtml")).
Proof. vm_compute. discriminate. Qed.

(** ** The container stage *)

Section ContainerFacts.
Context `{Qt}.

Lemma parseContentFile_flag (archive : QuaZip) (filepath : string)
  (s : EPubContainer) :
  (parseContentFile archive filepath s).1 =
  bool_decide (is_Some (readAll archive filepath)).
Proof.
  unfold parseContentFile. destruct (readAll archive filepath) eqn:E.
  - rewrite bool_decide_eq_true_2 by eauto. reflexivity.
  - rewrite bool_decide_eq_false_2 by (by intros [? ?]). reflexivity.
Qed.

Lemma parseContentFile_opened (archive : QuaZip) (filepath content : string)
  (s : EPubContainer) :
  readAll archive filepath = Some content →
  parseContentFile archive filepath s =
  (true, parsePackageDocument (setContent content true).2 filepath s).
Proof. intros E. unfold parseContentFile. by rewrite E. Qed.

Lemma parseContentFile_closed (archive : QuaZip) (filepath : string)
  (s : EPubContainer) :
  readAll archive filepath = None →
  parseContentFile archive filepath s = (false, emitError MalformedMetadata s).
Proof. intros E. unfold parseContentFile. by rewrite E. Qed.

Lemma usable_spec (archive : QuaZip) (p : string) :
  usable archive p = true ↔ p ≠ "" ∧ is_Some (readAll archive p).
Proof.
  unfold usable. rewrite andb_true_iff, negb_true_iff, isEmpty_false.
  by rewrite bool_decide_eq_true.
Qed.

(** The candidate loop against the specification's words: the candidates
    before the first usable one leave their diagnostics, the first usable
    one is parsed and ends the loop. *)
Lemma parseRootfiles_spec (archive : QuaZip) (rootNodes : list QDomNode)
  (s : EPubContainer) :
  let paths := List.map (λ n, attribute n "full-path") rootNodes in
  let s0 := logAll (candidateEvents archive paths) s in
  parseRootfiles archive rootNodes s =
  match List.find (usable archive) paths with
  | Some p => parseContentFile archive p s0
  | None => (false, s0)
  end.
Proof.
  cbv zeta. revert s. induction rootNodes as [| n l IH]; intros s; [done |].
  simpl. destruct (usable archive (attribute n "full-path")) eqn:Hu.
  - apply usable_spec in Hu as [Hne [content Hc]].
    rewrite (proj2 (isEmpty_false _) Hne).
    rewrite !(parseContentFile_opened _ _ content) by done. reflexivity.
  - destruct (isEmpty (attribute n "full-path")) eqn:He.
    { rewrite IH. done. }
    unfold usable in Hu. rewrite He in Hu. simpl in Hu.
    apply bool_decide_eq_false in Hu.
    destruct (readAll archive (attribute n "full-path")) eqn:Hr;
      [exfalso; apply Hu; eauto |].
    rewrite parseContentFile_closed by done. rewrite IH. done.
Qed.

Lemma parseContainer_spec (archive : QuaZip) (files : list string)
  (s : EPubContainer) :
  parseContainer archive files s =
  if contains files CONTAINER_FILE then
    match readAll archive CONTAINER_FILE with
    | None => (false, emitError UnableToOpenContainer s)
    | Some container =>
        let paths := rootfilePaths (setContent container false).2 in
        let s0 := logAll (candidateEvents archive paths) s in
        match List.find (usable archive) paths with
        | Some p => parseContentFile archive p s0
        | None => (false, emitError NoContentFiles s0)
        end
    end
  else (false, emitError UnableToFindContainer s).
Proof.
  unfold parseContainer. destruct (contains files CONTAINER_FILE); [| done].
  destruct (readAll archive CONTAINER_FILE) as [container |]; [| done].
  cbv zeta. rewrite parseRootfiles_spec. cbv zeta. unfold rootfilePaths.
  destruct (List.find _ _) as [p |] eqn:Hf; [| done].
  apply List.find_some in Hf as [_ Hu]. apply usable_spec in Hu as [_ [c Hc]].
  by rewrite (parseContentFile_opened _ _ c).
Qed.

End ContainerFacts.

(** C3: without META-INF/container.xml among the entries the stage fails
    with an error, and so it does when that entry cannot be opened.
    Otherwise the full-path attributes of the rootfile elements are taken in
    document order; the candidates before the first usable one leave a
    warning each when empty and the error of the failed parse otherwise; the
    first candidate that is not empty and whose entry opens is parsed and
    the stage succeeds with it; when there is none the stage fails with an
    error, whatever else the archive holds. *)
Theorem parseContainer_candidates `{Qt} (archive : QuaZip)
  (files : list string) (s : EPubContainer) :
  (CONTAINER_FILE ∉ files →
   parseContainer archive files s = (false, emitError UnableToFindContainer s)) ∧
  (CONTAINER_FILE ∈ files → readAll archive CONTAINER_FILE = None →
   parseContainer archive files s = (false, emitError UnableToOpenContainer s)) ∧
  (∀ container : string,
     CONTAINER_FILE ∈ files → readAll archive CONTAINER_FILE = Some container →
     let paths := rootfilePaths (setContent container false).2 in
     let s0 := logAll (candidateEvents archive paths) s in
     match List.find (usable archive) paths with
     | Some p =>
         parseContainer archive files s = parseContentFile archive p s0 ∧
         (parseContentFile archive p s0).1 = true
     | None =>
         parseContainer archive files s = (false, emitError NoContentFiles s0)
     end).
Proof.
  rewrite parseContainer_spec. unfold contains. split_and!.
  - intros Hn. by rewrite bool_decide_eq_false_2.
  - intros Hin Hr. by rewrite bool_decide_eq_true_2, Hr.
  - intros container Hin Hr. rewrite bool_decide_eq_true_2, Hr by done.
    cbv zeta. destruct (List.find _ _) as [p |] eqn:Hf; [| done].
    split; [done |]. rewrite parseContentFile_flag.
    apply List.find_some in Hf as [_ Hu]. apply usable_spec in Hu as [_ Hs].
    by apply bool_decide_eq_true.
Qed.

(** On the fixture book the empty candidate and the missing one are passed
    over and OEBPS/content.opf is parsed. *)
Lemma parseContainer_candidates_witness :
  @parseContainer Fixture.qt Fixture.book (getFileNameList Fixture.book)
    newEPubContainer =
  @parseContentFile Fixture.qt Fixture.book "OEBPS/content.opf"
    (logAll [QLOG_WARN InvalidRootFileEntry; errorHappened MalformedMetadata]
            newEPubContainer).
Proof.
  pose proof (proj2 (proj2 (@parseContainer_candidates Fixture.qt Fixture.book
    (getFileNameList Fixture.book) newEPubContainer))) as Hc.
  assert (CONTAINER_FILE ∈ getFileNameList Fixture.book) as Hin.
  { apply (bool_decide_unpack _). vm_compute. exact I. }
  specialize (Hc Fixture.containerText Hin eq_refl).
  exact (proj1 Hc).
Defined.

(** C10: [parseContentFile] succeeds exactly when the entry of the
    candidate opens.  What the entry holds plays no part: the document the
    XML reader leaves behind is parsed whether or not the reader accepted
    the text, and an empty document is parsed successfully and stores
    nothing.  So the candidate loop succeeds exactly when some candidate is
    not empty and its entry opens, and it is the first such candidate that
    is parsed. *)
Theorem parseContentFile_succeeds_when_opened `{Qt} :
  (∀ (archive : QuaZip) (filepath : string) (s : EPubContainer),
     (parseContentFile archive filepath s).1 =
     bool_decide (is_Some (readAll archive filepath))) ∧
  (∀ (archive : QuaZip) (filepath content : string) (s : EPubContainer),
     readAll archive filepath = Some content →
     parseContentFile archive filepath s =
     (true, parsePackageDocument (setContent content true).2 filepath s)) ∧
  (∀ (filepath : string) (s : EPubContainer),
     parsePackageDocument [] filepath s = s) ∧
  (∀ (archive : QuaZip) (rootNodes : list QDomNode) (s : EPubContainer),
     (parseRootfiles archive rootNodes s).1 =
     bool_decide (is_Some (List.find (usable archive)
                             (List.map (λ n, attribute n "full-path") rootNodes)))) ∧
  (∀ (archive : QuaZip) (rootNodes : list QDomNode) (s : EPubContainer),
     let paths := List.map (λ n, attribute n "full-path") rootNodes in
     let s0 := logAll (candidateEvents archive paths) s in
     parseRootfiles archive rootNodes s =
     match List.find (usable archive) paths with
     | Some p => parseContentFile archive p s0
     | None => (false, s0)
     end).
Proof.
  split_and!; [| | | | apply parseRootfiles_spec].
  - apply parseContentFile_flag.
  - apply parseContentFile_opened.
  - reflexivity.
  - intros archive rootNodes s. rewrite parseRootfiles_spec. cbv zeta.
    destruct (List.find _ _) as [p |] eqn:Hf.
    + rewrite parseContentFile_flag.
      apply List.find_some in Hf as [_ Hu]. apply usable_spec in Hu as [_ Hs].
      rewrite !bool_decide_eq_true_2; eauto.
    + reflexivity.
Qed.

(** The package document of the garbage fixture is not XML, the reader
    rejects it, and it still counts as parsed. *)
Lemma parseContentFile_succeeds_when_opened_witness :
  (Fixture.readXml "not xml" true).1 = false ∧
  @parseContentFile Fixture.qt Fixture.garbage "OEBPS/content.opf"
    newEPubContainer = (true, newEPubContainer).
Proof.
  split; [reflexivity |].
  exact (proj1 (proj2 (@parseContentFile_succeeds_when_opened Fixture.qt))
           Fixture.garbage "OEBPS/content.opf" "not xml" newEPubContainer eq_refl).
Defined.

(** ** The whole pipeline *)

Lemma logAll_registry (l : list Event) (s : EPubContainer) :
  m_items (logAll l s) = m_items s ∧
  m_orderedItems (logAll l s) = m_orderedItems s ∧
  m_unorderedItems (logAll l s) = m_unorderedItems s.
Proof.
  revert s. induction l as [| e l IH]; intros s; [done |].
  rewrite logAll_cons. destruct (IH (log e s)) as (-> & -> & ->). done.
Qed.

Section PipelineFacts.
Context `{Qt}.

Lemma parseMimetype_log (archive : QuaZip) (files : list string)
  (s : EPubContainer) :
  ∃ evs, (parseMimetype archive files s).2 = logAll evs s.
Proof.
  unfold parseMimetype.
  destruct (contains files MIMETYPE_FILE);
    [| by exists [errorHappened UnableToFindMimetype]].
  destruct (readAll archive MIMETYPE_FILE) as [m |];
    [| by exists [errorHappened UnableToOpenMimetype]].
  destruct (negb (bool_decide (m = "application/epub+zip")));
    [by exists [errorHappened (UnexpectedMimetype m)] | by exists []].
Qed.

Lemma parseToc_registry (fuel : nat) (archive : QuaZip) (files : list string)
  (s s' : EPubContainer) (ok : bool) :
  parseToc fuel archive files s = Some (ok, s') →
  m_items s' = m_items s ∧ m_orderedItems s' = m_orderedItems s ∧
  m_unorderedItems s' = m_unorderedItems s.
Proof.
  unfold parseToc. intros Hp.
  repeat (case_match; simplify_eq/=); done.
Qed.

Lemma parseContainer_success (archive : QuaZip) (files : list string)
  (s s' : EPubContainer) :
  parseContainer archive files s = (true, s') →
  ∃ filepath content,
    packagePath archive = Some filepath ∧
    readAll archive filepath = Some content ∧
    ∃ evs, s' = parsePackageDocument (setContent content true).2 filepath
                  (logAll evs s).
Proof.
  rewrite parseContainer_spec. unfold packagePath.
  destruct (contains files CONTAINER_FILE); [| done].
  destruct (readAll archive CONTAINER_FILE) as [container |]; [| done].
  cbv zeta. simpl.
  destruct (List.find _ _) as [p |] eqn:Hf; [| done].
  unfold parseContentFile.
  destruct (readAll archive p) as [content |] eqn:Hr; [| done].
  intros [= <-]. exists p, content. split_and!; [done | done |].
  by eexists.
Qed.

Lemma openFile_success (fuel : nat) (path : string) (s s' : EPubContainer) :
  openFile fuel path s = Some (true, s') →
  ∃ document filepath evs,
    packageDocument path = Some document ∧
    let s2 := parsePackageDocument document filepath
                (logAll evs (set_filename path s)) in
    m_items s' = m_items s2 ∧ m_orderedItems s' = m_orderedItems s2 ∧
    m_unorderedItems s' = m_unorderedItems s2.
Proof.
  unfold openFile, packageDocument.
  destruct (QuaZip_open path) as [archive |]; [| done]. simpl.
  destruct (bool_decide (getFileNameList archive = [])); [done |].
  destruct (parseMimetype_log archive (getFileNameList archive)
              (set_filename path s)) as [evs1 Hm].
  destruct (parseMimetype archive (getFileNameList archive)
              (set_filename path s)) as [ok1 s1]. simpl in Hm. subst s1.
  destruct ok1; simpl; [| done].
  destruct (parseContainer archive (getFileNameList archive)
              (logAll evs1 (set_filename path s))) as [ok2 s2] eqn:Hc.
  destruct ok2; simpl; [| done].
  apply parseContainer_success in Hc
    as (filepath & content & Hp & Hr & evs2 & ->).
  destruct (parseToc fuel archive (getFileNameList archive) _)
    as [[ok3 s3] |] eqn:Ht; [| done].
  destruct ok3; simpl; [| done]. intros [= <-].
  apply parseToc_registry in Ht.
  exists (setContent content true).2, filepath, (evs1 ++ evs2).
  rewrite Hp. simpl. rewrite Hr. simpl. split; [done |].
  by rewrite logAll_app.
Qed.

End PipelineFacts.



(** ** The mimetype stage *)

(** C4, with the channel the code uses: opening an archive that has no
    entry named mimetype fails, the trace holds exactly one error event and
    nothing but the file name and the trace differs from the fresh
    container, so no later stage ran.  A mimetype entry whose content is not
    application/epub+zip makes the stage emit one error event (not a
    warning) and report success, and [openFile] goes on with the container
    stage and the table of contents. *)
Theorem mimetype_stage `{Qt} :
  (∀ (fuel : nat) (path : string) (archive : QuaZip),
     QuaZip_open path = Some archive →
     MIMETYPE_FILE ∉ getFileNameList archive →
     ∃ m s',
       openFile fuel path newEPubContainer = Some (false, s') ∧
       s' = emitError m (set_filename path newEPubContainer) ∧
       events s' = [errorHappened m]) ∧
  (∀ (archive : QuaZip) (files : list string) (s : EPubContainer)
     (content : string),
     MIMETYPE_FILE ∈ files →
     readAll archive MIMETYPE_FILE = Some content →
     content ≠ "application/epub+zip" →
     parseMimetype archive files s =
     (true, emitError (UnexpectedMimetype content) s)) ∧
  (∀ (fuel : nat) (path : string) (archive : QuaZip) (content : string),
     QuaZip_open path = Some archive →
     MIMETYPE_FILE ∈ getFileNameList archive →
     readAll archive MIMETYPE_FILE = Some content →
     content ≠ "application/epub+zip" →
     openFile fuel path newEPubContainer =
     let files := getFileNameList archive in
     let s1 := emitError (UnexpectedMimetype content)
                 (set_filename path newEPubContainer) in
     match parseContainer archive files s1 with
     | (false, s2) => Some (false, s2)
     | (true, s2) => parseToc fuel archive files s2
     end).
Proof.
  assert (∀ (archive : QuaZip) (files : list string) (s : EPubContainer)
            (content : string),
            MIMETYPE_FILE ∈ files →
            readAll archive MIMETYPE_FILE = Some content →
            content ≠ "application/epub+zip" →
            parseMimetype archive files s =
            (true, emitError (UnexpectedMimetype content) s)) as Hstage.
  { intros archive files s content Hin Hr Hne. unfold parseMimetype, contains.
    rewrite bool_decide_eq_true_2, Hr by done.
    by rewrite bool_decide_eq_false_2. }
  split_and!; [| exact Hstage |].
  - intros fuel path archive Ho Hn. unfold openFile. rewrite Ho.
    case_bool_decide as He.
    + exists (FailedToRead path). by eexists.
    + unfold parseMimetype, contains. rewrite bool_decide_eq_false_2 by done.
      simpl. exists UnableToFindMimetype. by eexists.
  - intros fuel path archive content Ho Hin Hr Hne. unfold openFile.
    rewrite Ho. rewrite bool_decide_eq_false_2
      by (intros He; rewrite He in Hin; by apply elem_of_nil in Hin).
    rewrite (Hstage _ _ _ content) by done. cbv zeta. simpl.
    destruct (parseContainer _ _ _) as [[] s2]; simpl; [| done].
    destruct (parseToc _ _ _ _) as [[[] s3] |]; done.
Qed.

(** The fixture without a mimetype entry: one error event, nothing else. *)
Lemma mimetype_stage_witness :
  @openFile Fixture.qt 4 "nomimetype.epub" newEPubContainer =
  Some (false, emitError UnableToFindMimetype
                 (set_filename "nomimetype.epub" newEPubContainer)).
Proof.
  assert (MIMETYPE_FILE ∉ getFileNameList Fixture.noMimetype) as Hn.
  { apply (proj1 (bool_decide_eq_false _)). vm_compute. reflexivity. }
  destruct (proj1 (@mimetype_stage Fixture.qt) 4 "nomimetype.epub"
              Fixture.noMimetype eq_refl Hn) as (m & s' & Ho & Hs & _).
  rewrite Ho. vm_compute in Ho. injection Ho as <-. by vm_compute.
Defined.

(** C4 fails as stated: on the fixture whose mimetype entry holds
    text/plain the stage succeeds, and what it emits is an error event, not
    only warnings. *)
Lemma mimetype_stage_counterexample :
  ¬ (∀ e, e ∈ events (parseMimetype Fixture.wrongMimetype
                        (getFileNameList Fixture.wrongMimetype)
                        newEPubContainer).2 →
          isWarning e = true).
Proof.
  intros Hall.
  specialize (Hall (errorHappened (UnexpectedMimetype "text/plain"))).
  assert (errorHappened (UnexpectedMimetype "text/plain")
          ∈ events (parseMimetype Fixture.wrongMimetype
                      (getFileNameList Fixture.wrongMimetype)
                      newEPubContainer).2) as Hin.
  { vm_compute. left. }
  apply Hall in Hin. discriminate.
Qed.

(** ** The table of contents *)

Lemma set_navmap_id (toc : EPubToc) : set_navmap (navmap toc) toc = toc.
Proof. by destruct toc. Qed.

Lemma findElement_named (name : string) (l : list QDomNode) :
  name ≠ "" →
  match findElement name l with
  | None => List.filter (named name) l = []
  | Some (n, following) =>
      List.filter (named name) l = n :: List.filter (named name) following
  end.
Proof.
  intros Hne. apply isEmpty_false in Hne.
  assert (∀ n, isElement n && (isEmpty name || bool_decide (tagName n = name))
               = named name n) as Hc.
  { intros n. unfold named. by rewrite Hne. }
  induction l as [| n l IH]; simpl; [done |].
  rewrite Hc. destruct (named name n); [done | exact IH].
Qed.

Lemma siblingNavPoints_findElement (l : list QDomNode) :
  siblingNavPoints (findElement "navPoint" l) =
  List.filter (named "navPoint") l.
Proof.
  pose proof (findElement_named "navPoint" l) as Hf.
  destruct (findElement "navPoint" l) as [[n following] |]; simpl;
    symmetry; by apply Hf.
Qed.

Lemma siblingNavPoints_firstChild (e : QDomElement) :
  siblingNavPoints (firstChildElement e "navPoint") =
  List.filter (named "navPoint") (childNodes (elem e)).
Proof. unfold firstChildElement. apply siblingNavPoints_findElement. Qed.

(** A navmap whose keys ascend strictly. *)
Lemma QMap_insert_keys_Forall {A : Type} (P : Z → Prop) (k : Z) (v : A)
  (m : QMap A) :
  P k → Forall P (QMap_keys m) → Forall P (QMap_keys (QMap_insert k v m)).
Proof.
  intros Hk. induction m as [| [k' v'] m IH]; simpl; intros Hm.
  - by constructor.
  - apply Forall_cons in Hm as [Hk' Hm].
    destruct (k <? k')%Z; [| destruct (k =? k')%Z]; simpl;
      repeat constructor; auto.
Qed.

Lemma QMap_insert_sorted {A : Type} (k : Z) (v : A) (m : QMap A) :
  StronglySorted Z.lt (QMap_keys m) →
  StronglySorted Z.lt (QMap_keys (QMap_insert k v m)).
Proof.
  induction m as [| [k' v'] m IH]; simpl; intros Hs.
  - repeat constructor.
  - apply StronglySorted_inv in Hs as [Hs Hall].
    destruct (k <? k')%Z eqn:Hlt; [| destruct (k =? k')%Z eqn:Heq]; simpl.
    + apply Z.ltb_lt in Hlt. constructor.
      * by constructor.
      * constructor; [done |].
        eapply Forall_impl; [exact Hall |]. intros; simpl in *; lia.
    + apply Z.eqb_eq in Heq. subst k'. by constructor.
    + apply Z.ltb_ge in Hlt. apply Z.eqb_neq in Heq.
      constructor; [by apply IH |].
      apply QMap_insert_keys_Forall; [lia | done].
Qed.

Lemma QMap_value_insert {A : Type} (k k' : Z) (v : A) (m : QMap A) :
  QMap_value (QMap_insert k v m) k' =
  if (k' =? k)%Z then Some v else QMap_value m k'.
Proof.
  induction m as [| [k0 v0] m IH]; simpl; [done |].
  destruct (k <? k0)%Z eqn:Hlt; [| destruct (k =? k0)%Z eqn:Heq]; simpl.
  - done.
  - apply Z.eqb_eq in Heq. subst k0. by destruct (k' =? k)%Z.
  - rewrite IH. apply Z.eqb_neq in Heq.
    destruct (k' =? k0)%Z eqn:H0; [| done].
    apply Z.eqb_eq in H0. subst k0.
    by assert ((k' =? k)%Z = false) as -> by (apply Z.eqb_neq; lia).
Qed.

Lemma QMap_insert_comm {A : Type} (k1 k2 : Z) (v1 v2 : A) (m : QMap A) :
  k1 ≠ k2 →
  QMap_insert k1 v1 (QMap_insert k2 v2 m) =
  QMap_insert k2 v2 (QMap_insert k1 v1 m).
Proof.
  intros Hne. induction m as [| [k v] m IH]; simpl.
  - destruct (k1 <? k2)%Z eqn:H12, (k2 <? k1)%Z eqn:H21,
             (k1 =? k2)%Z eqn:E12, (k2 =? k1)%Z eqn:E21; try done; lia.
  - destruct (k1 <? k)%Z eqn:H1, (k2 <? k)%Z eqn:H2,
             (k1 =? k)%Z eqn:E1, (k2 =? k)%Z eqn:E2; simpl;
      rewrite ?H1, ?H2, ?E1, ?E2;
      destruct (k1 <? k2)%Z eqn:H12, (k2 <? k1)%Z eqn:H21,
               (k1 =? k2)%Z eqn:E12, (k2 =? k1)%Z eqn:E21;
      simpl; try rewrite IH; try done; lia.
Qed.

Lemma tocMetaLoop_stuck (fuel : nat) (head : QDomElement) (m : QDomNode)
  (following : list QDomNode) (toc : EPubToc) :
  isNull (nextSiblingElement head "navPoint") = false →
  tocMetaLoop fuel head (Some (m, following)) toc = None.
Proof.
  intros Hn. revert m following toc.
  induction fuel as [| fuel IH]; intros m following toc; [done |].
  simpl. destruct (nextSiblingElement head "navPoint") as [[m' f'] |];
    [apply IH | done].
Qed.

(** The head loop: it returns after the first meta element, or not at all. *)
Lemma tocMetaLoop_spec (fuel : nat) (head meta : QDomElement) (toc : EPubToc) :
  tocMetaLoop fuel head meta toc =
  match meta with
  | None => Some toc
  | Some (m, _) =>
      if isNull (nextSiblingElement head "navPoint") then
        match fuel with
        | O => None
        | S _ => Some (set_toc_metadata
                         (<[attribute m "name" := attribute m "content"]>
                            (toc_metadata toc)) toc)
        end
      else None
  end.
Proof.
  destruct meta as [[m following] |]; [| by destruct fuel].
  destruct (isNull (nextSiblingElement head "navPoint")) eqn:Hn;
    [| by apply tocMetaLoop_stuck].
  destruct fuel as [| fuel]; [done |]. simpl.
  destruct (nextSiblingElement head "navPoint"); [done |].
  by destruct fuel.
Qed.

Section TocFacts.
Context `{Qt}.

Lemma toInt_fst (s : string) : (toInt s).1 = default 0%Z (parseInt s).
Proof. unfold toInt. by destruct (parseInt s). Qed.

(** The navPoint loop returns once the fuel covers the navPoints left, with
    each of them stored under its play order in document order. *)
Lemma tocNavPointLoop_spec (fuel : nat) (navPoint : QDomElement)
  (toc : EPubToc) :
  tocNavPointLoop fuel navPoint toc =
  if decide (List.length (siblingNavPoints navPoint) ≤ fuel)%nat then
    Some (set_navmap (foldl insertNavPoint (navmap toc)
                            (siblingNavPoints navPoint)) toc)
  else None.
Proof.
  revert navPoint toc. induction fuel as [| fuel IH]; intros navPoint toc.
  - destruct navPoint as [[n following] |].
    + destruct (decide _) as [Hle | _]; [simpl in Hle; lia | reflexivity].
    + destruct (decide _) as [_ | Hgt]; [| simpl in Hgt; lia].
      simpl. by rewrite set_navmap_id.
  - destruct navPoint as [[n following] |].
    + cbn [tocNavPointLoop isNull nextSiblingElement].
      rewrite IH, siblingNavPoints_findElement, toInt_fst.
      cbn [siblingNavPoints List.length foldl].
      destruct (decide (List.length (List.filter (named "navPoint") following)
                        ≤ fuel)%nat) as [Hle | Hgt].
      * rewrite decide_True by lia. reflexivity.
      * rewrite decide_False by lia. reflexivity.
    + destruct (decide _) as [_ | Hgt]; [| simpl in Hgt; lia].
      simpl. by rewrite set_navmap_id.
Qed.

Lemma insertNavPoints_sorted (l : list QDomNode) (m : QMap EPubNavPoint) :
  StronglySorted Z.lt (QMap_keys m) →
  StronglySorted Z.lt (QMap_keys (foldl insertNavPoint m l)).
Proof.
  revert m. induction l as [| n l IH]; intros m Hm; [done |].
  simpl. apply IH. by apply QMap_insert_sorted.
Qed.

Lemma insertNavPoints_value (l : list QDomNode) (m : QMap EPubNavPoint)
  (k : Z) :
  QMap_value (foldl insertNavPoint m l) k =
  match lastWithPlayOrder k l with
  | Some n => Some (navPointOf n)
  | None => QMap_value m k
  end.
Proof.
  induction l as [| n l IH] using rev_ind; [done |].
  rewrite foldl_snoc. unfold lastWithPlayOrder. rewrite rev_unit. simpl.
  unfold insertNavPoint at 1. rewrite QMap_value_insert.
  rewrite (Z.eqb_sym k). destruct (playOrderOf n =? k)%Z; [done | exact IH].
Qed.

Lemma insertNavPoints_permutation (l l' : list QDomNode)
  (m : QMap EPubNavPoint) :
  NoDup (List.map playOrderOf l) → l ≡ₚ l' →
  foldl insertNavPoint m l = foldl insertNavPoint m l'.
Proof.
  intros Hnd Hp. revert m.
  induction Hp as [| x l1 l2 Hp IH | x y l0 | l1 l2 l3 Hp1 IH1 Hp2 IH2];
    intros m.
  - done.
  - simpl. apply IH. by apply NoDup_cons in Hnd as [_ Hnd].
  - simpl. f_equal. unfold insertNavPoint. apply QMap_insert_comm.
    simpl in Hnd. apply NoDup_cons in Hnd as [Hy _].
    intros Heq. apply Hy. rewrite Heq. left.
  - rewrite IH1 by done. apply IH2.
    assert (List.map playOrderOf l1 ≡ₚ List.map playOrderOf l2) as Hm
      by (by apply Permutation_map).
    by rewrite <- Hm.
Qed.

Lemma parseTocDocument_navmap (fuel : nat) (document : QDomDocument)
  (toc toc' : EPubToc) :
  parseTocDocument fuel document toc = Some toc' →
  navmap toc' = foldl insertNavPoint (navmap toc) (navMapPoints document).
Proof.
  unfold parseTocDocument, navMapPoints. intros Hp.
  destruct (tocMetaLoop _ _ _ _) as [toc2 |] eqn:Hm; [| done].
  rewrite tocNavPointLoop_spec in Hp.
  rewrite siblingNavPoints_firstChild in Hp.
  destruct (decide _); [| done]. injection Hp as <-. simpl.
  rewrite tocMetaLoop_spec in Hm.
  repeat (case_match; simplify_eq/=); done.
Qed.

End TocFacts.

Lemma parseTocDocument_returns `{Qt} (fuel : nat) (document : QDomDocument)
  (toc : EPubToc) :
  isNull (nextSiblingElement
            (firstChildElement (documentElement document) "head") "navPoint")
    = true →
  (1 ≤ fuel)%nat → (List.length (navMapPoints document) ≤ fuel)%nat →
  is_Some (parseTocDocument fuel document toc).
Proof.
  intros Hn H1 Hlen. unfold parseTocDocument.
  rewrite tocMetaLoop_spec, Hn.
  destruct fuel as [| fuel]; [lia |].
  destruct (firstChildElement (firstChildElement _ "head") "meta")
    as [[m following] |];
    rewrite tocNavPointLoop_spec, siblingNavPoints_firstChild;
    fold (navMapPoints document); rewrite decide_True by done; eauto.
Qed.

(** C7 does not hold of the code.  The head loop advances with
    [head.nextSiblingElement("navPoint")]: when no navPoint follows the
    head it ends after the first meta element, and when one does it never
    ends.  On the fixture, whose head holds dtb:uid and dtb:depth, only
    dtb:uid is stored. *)
Theorem toc_head_first_meta_only :
  (∀ (fuel : nat) (head meta : QDomElement) (toc : EPubToc),
     tocMetaLoop fuel head meta toc =
     match meta with
     | None => Some toc
     | Some (m, _) =>
         if isNull (nextSiblingElement head "navPoint") then
           match fuel with
           | O => None
           | S _ => Some (set_toc_metadata
                            (<[attribute m "name" := attribute m "content"]>
                               (toc_metadata toc)) toc)
           end
         else None
     end) ∧
  List.map (λ n, (attribute n "name", attribute n "content"))
           (headMetas Fixture.tocDom) =
    [("dtb:uid", "u1"); ("dtb:depth", "1")] ∧
  (∀ fuel : nat,
     ∃ toc, @parseTocDocument Fixture.qt (4 + fuel) Fixture.tocDom newEPubToc
            = Some toc ∧
            toc_metadata toc = {[ "dtb:uid" := "u1" ]} ∧
            toc_metadata toc !! "dtb:depth" = None) ∧
  (∀ fuel : nat,
     ∃ s', @parseToc Fixture.qt (4 + fuel) Fixture.book
             (getFileNameList Fixture.book) newEPubContainer = Some (true, s') ∧
           toc_metadata (m_toc s') !! "dtb:uid" = Some "u1" ∧
           toc_metadata (m_toc s') !! "dtb:depth" = None).
Proof.
  assert (∀ fuel : nat,
     ∃ toc, @parseTocDocument Fixture.qt (4 + fuel) Fixture.tocDom newEPubToc
            = Some toc ∧
            toc_metadata toc = {[ "dtb:uid" := "u1" ]} ∧
            toc_metadata toc !! "dtb:depth" = None) as Hdoc; [| split_and!].
  4: exact Hdoc.
  4: { intros fuel. destruct (Hdoc fuel) as (toc & Ht & Hm & Hd).
       exists (set_toc toc newEPubContainer). unfold parseToc.
       assert (contains (getFileNameList Fixture.book) TOC_FILE = true) as ->
         by (by vm_compute).
       assert (readAll Fixture.book TOC_FILE = Some Fixture.tocText) as ->
         by (by vm_compute).
       assert (@setContent Fixture.qt Fixture.tocText false
               = (true, Fixture.tocDom)) as -> by (by vm_compute).
       change (m_toc newEPubContainer) with newEPubToc. rewrite Ht.
       simpl. rewrite Hm. split_and!; [done | by vm_compute | by vm_compute]. }
  - intros fuel.
    destruct (@parseTocDocument_returns Fixture.qt (4 + fuel) Fixture.tocDom
                newEPubToc) as [toc Ht].
    + by vm_compute.
    + lia.
    + transitivity 4; [by vm_compute | lia].
    + exists toc. split; [done |].
      assert (toc_metadata toc = {[ "dtb:uid" := "u1" ]}) as Hm.
      { revert Ht. unfold parseTocDocument. rewrite tocMetaLoop_spec.
        change (4 + fuel) with (S (3 + fuel)).
        assert (firstChildElement
                  (firstChildElement (documentElement Fixture.tocDom) "head")
                  "meta"
                = Some (Fixture.el "meta" [("name", "dtb:uid"); ("content", "u1")] [],
                        [Fixture.el "meta" [("name", "dtb:depth"); ("content", "1")] []]))
          as -> by (by vm_compute).
        assert (isNull (nextSiblingElement
                          (firstChildElement (documentElement Fixture.tocDom) "head")
                          "navPoint") = true) as -> by (by vm_compute).
        rewrite tocNavPointLoop_spec. destruct (decide _); [| done].
        intros [= <-]. by vm_compute. }
      split; [done |]. rewrite Hm. by vm_compute.
  - apply tocMetaLoop_spec.
  - by vm_compute.
Qed.

Lemma parseToc_navmap `{Qt} (fuel : nat) (archive : QuaZip)
  (files : list string) (s s' : EPubContainer) (data : string) (ok : bool) :
  TOC_FILE ∈ files → readAll archive TOC_FILE = Some data →
  (setContent data false).1 = true →
  parseToc fuel archive files s = Some (ok, s') →
  ok = true ∧
  navmap (m_toc s') =
  foldl insertNavPoint (navmap (m_toc s))
        (navMapPoints (setContent data false).2).
Proof.
  intros Hin Hr Hok. unfold parseToc, contains.
  rewrite bool_decide_eq_true_2, Hr by done.
  destruct (setContent data false) as [b document]. simpl in Hok. subst b.
  destruct (parseTocDocument fuel document (m_toc s)) as [t |] eqn:Ht;
    [| done].
  intros [= <- <-]. split; [done |]. simpl.
  by apply (parseTocDocument_navmap fuel).
Qed.

Lemma parseToc_returns `{Qt} (fuel : nat) (archive : QuaZip)
  (files : list string) (s : EPubContainer) (data : string) :
  TOC_FILE ∈ files → readAll archive TOC_FILE = Some data →
  (setContent data false).1 = true →
  isNull (nextSiblingElement
            (firstChildElement (documentElement (setContent data false).2)
                               "head") "navPoint") = true →
  (1 ≤ fuel)%nat →
  (List.length (navMapPoints (setContent data false).2) ≤ fuel)%nat →
  ∃ s', parseToc fuel archive files s = Some (true, s').
Proof.
  intros Hin Hr Hok Hn H1 Hlen.
  destruct (parseTocDocument_returns fuel (setContent data false).2 (m_toc s)
              Hn H1 Hlen) as [t Ht].
  unfold parseToc, contains. rewrite bool_decide_eq_true_2, Hr by done.
  destruct (setContent data false) as [b document]. simpl in *. subst b.
  rewrite Ht. eauto.
Qed.

(** C8: when toc.ncx is listed, opens and is accepted by the XML reader,
    [parseToc] returns true whenever it returns, and the navmap of the table
    of contents is then the earlier navmap with the navPoint children of the
    navMap inserted one by one, in document order, each under its play order
    read as an integer; it returns as soon as the fuel covers one head
    iteration and the navPoints (no navPoint following the head).  So the
    keys of the navmap ascend strictly whatever the document order, and a
    key reads the last navPoint in document order that has it: a later
    navPoint overwrites an earlier one with the same play order.  NavPoints
    with pairwise different play orders give the same navmap in any order.
    A play order that is not a number reads as zero and the navPoint is
    stored under zero. *)
Theorem navmap_keyed_by_playOrder `{Qt} :
  (∀ (fuel : nat) (archive : QuaZip) (files : list string)
     (s s' : EPubContainer) (data : string) (ok : bool),
     TOC_FILE ∈ files → readAll archive TOC_FILE = Some data →
     (setContent data false).1 = true →
     parseToc fuel archive files s = Some (ok, s') →
     let points := navMapPoints (setContent data false).2 in
     ok = true ∧
     navmap (m_toc s') = foldl insertNavPoint (navmap (m_toc s)) points ∧
     (StronglySorted Z.lt (QMap_keys (navmap (m_toc s))) →
      StronglySorted Z.lt (QMap_keys (navmap (m_toc s')))) ∧
     (∀ k : Z,
        QMap_value (navmap (m_toc s')) k =
        match lastWithPlayOrder k points with
        | Some n => Some (navPointOf n)
        | None => QMap_value (navmap (m_toc s)) k
        end)) ∧
  (∀ (fuel : nat) (archive : QuaZip) (files : list string)
     (s : EPubContainer) (data : string),
     TOC_FILE ∈ files → readAll archive TOC_FILE = Some data →
     (setContent data false).1 = true →
     isNull (nextSiblingElement
               (firstChildElement (documentElement (setContent data false).2)
                                  "head") "navPoint") = true →
     (1 ≤ fuel)%nat →
     (List.length (navMapPoints (setContent data false).2) ≤ fuel)%nat →
     ∃ s', parseToc fuel archive files s = Some (true, s')) ∧
  (∀ (fuel : nat) (navPoint : QDomElement) (toc : EPubToc),
     tocNavPointLoop fuel navPoint toc =
     if decide (List.length (siblingNavPoints navPoint) ≤ fuel)%nat then
       Some (set_navmap (foldl insertNavPoint (navmap toc)
                               (siblingNavPoints navPoint)) toc)
     else None) ∧
  (∀ (fuel : nat) (document : QDomDocument) (toc toc' : EPubToc),
     parseTocDocument fuel document toc = Some toc' →
     navmap toc' = foldl insertNavPoint (navmap toc) (navMapPoints document)) ∧
  (∀ (fuel : nat) (document : QDomDocument) (toc : EPubToc),
     isNull (nextSiblingElement
               (firstChildElement (documentElement document) "head") "navPoint")
       = true →
     (1 ≤ fuel)%nat → (List.length (navMapPoints document) ≤ fuel)%nat →
     is_Some (parseTocDocument fuel document toc)) ∧
  (∀ (l : list QDomNode) (m : QMap EPubNavPoint),
     StronglySorted Z.lt (QMap_keys m) →
     StronglySorted Z.lt (QMap_keys (foldl insertNavPoint m l))) ∧
  (∀ (l l' : list QDomNode) (m : QMap EPubNavPoint),
     NoDup (List.map playOrderOf l) → l ≡ₚ l' →
     foldl insertNavPoint m l = foldl insertNavPoint m l') ∧
  (∀ (l : list QDomNode) (m : QMap EPubNavPoint) (k : Z),
     QMap_value (foldl insertNavPoint m l) k =
     match lastWithPlayOrder k l with
     | Some n => Some (navPointOf n)
     | None => QMap_value m k
     end) ∧
  (∀ (n : QDomNode) (m : QMap EPubNavPoint),
     parseInt (attribute n "playOrder") = None →
     toInt (attribute n "playOrder") = (0%Z, false) ∧
     insertNavPoint m n = QMap_insert 0 (navPointOf n) m ∧
     QMap_value (insertNavPoint m n) 0 = Some (navPointOf n)).
Proof.
  split_and!.
  - intros fuel archive files s s' data ok Hin Hr Hok Hp.
    destruct (parseToc_navmap fuel archive files s s' data ok Hin Hr Hok Hp)
      as [-> Hn].
    cbv zeta. rewrite Hn. split_and!; [done | done | |].
    + apply insertNavPoints_sorted.
    + intros k. apply insertNavPoints_value.
  - apply parseToc_returns.
  - apply tocNavPointLoop_spec.
  - apply parseTocDocument_navmap.
  - apply parseTocDocument_returns.
  - apply insertNavPoints_sorted.
  - apply insertNavPoints_permutation.
  - apply insertNavPoints_value.
  - intros n m Hp. unfold insertNavPoint, playOrderOf, toInt. rewrite Hp. simpl.
    split_and!; [done | done |]. by rewrite QMap_value_insert.
Qed.

(** [parseToc] on the fixture book: play orders 2, 1, 2 and a word, in that
    document order, leave the keys 0, 1, 2 in the table of contents of the
    container; key 2 reads the later of the two navPoints and key 0 the one
    whose play order is a word. *)
Lemma navmap_keyed_by_playOrder_witness :
  ∃ s', @parseToc Fixture.qt 4 Fixture.book (getFileNameList Fixture.book)
          newEPubContainer = Some (true, s') ∧
        QMap_keys (navmap (m_toc s')) = [0; 1; 2]%Z ∧
        navId <$> QMap_value (navmap (m_toc s')) 2 = Some "n2b" ∧
        navId <$> QMap_value (navmap (m_toc s')) 0 = Some "nx".
Proof.
  assert (TOC_FILE ∈ getFileNameList Fixture.book) as Hin.
  { apply (bool_decide_unpack _). vm_compute. exact I. }
  assert (readAll Fixture.book TOC_FILE = Some Fixture.tocText) as Hr
    by (vm_compute; reflexivity).
  assert ((@setContent Fixture.qt Fixture.tocText false).1 = true) as Hok
    by (vm_compute; reflexivity).
  destruct (proj1 (proj2 (@navmap_keyed_by_playOrder Fixture.qt)) 4 Fixture.book
              (getFileNameList Fixture.book) newEPubContainer Fixture.tocText
              Hin Hr Hok) as [s' Hp].
  - by vm_compute.
  - lia.
  - by vm_compute.
  - exists s'. split; [exact Hp |].
    destruct (proj1 (@navmap_keyed_by_playOrder Fixture.qt) 4 Fixture.book
                (getFileNameList Fixture.book) newEPubContainer s'
                Fixture.tocText true Hin Hr Hok Hp) as (_ & Hn & _).
    rewrite Hn. by vm_compute.
Defined.

(** ** The accessors *)

Section ImageFacts.
Context `{QtGui}.

Lemma image_spec (archive : QuaZip) (id : string) (s : EPubContainer) :
  image archive id s =
  match m_items s !! id with
  | None => (nullImage, [accessorWarn (AskedForUnknownItem id)])
  | Some item =>
      if bool_decide (mimetype item ∈ supportedMimeTypes) then
        match readAll archive (path item) with
        | Some data => (fromData data, [])
        | None => (nullImage, [accessorError (UnableToOpenFile (path item))])
        end
      else (nullImage, [accessorWarn (AskedForUnsupportedType (mimetype item))])
  end.
Proof.
  unfold image, zipFile, contains. destruct (m_items s !! id) as [item |]; [| done].
  destruct (bool_decide (mimetype item ∈ supportedMimeTypes)); simpl; [| done].
  by destruct (readAll archive (path item)).
Qed.

End ImageFacts.

(** X1: [image] fails soft.  For an id that is not in the manifest registry,
    or whose media type no image decoder supports, it returns the null image
    and emits exactly one warning.  It emits an error event only for a known
    id of a supported type whose entry cannot be opened, and then too the
    result is the null image; whenever it emits anything the result is the
    null image. *)
Theorem image_fails_soft `{QtGui} (archive : QuaZip) (id : string)
  (s : EPubContainer) :
  let r := image archive id s in
  (m_items s !! id = None →
   r = (nullImage, [accessorWarn (AskedForUnknownItem id)])) ∧
  (∀ item, m_items s !! id = Some item →
           mimetype item ∉ supportedMimeTypes →
           r = (nullImage, [accessorWarn (AskedForUnsupportedType (mimetype item))])) ∧
  (∀ m, accessorError m ∈ r.2 ↔
        ∃ item, m_items s !! id = Some item ∧
                mimetype item ∈ supportedMimeTypes ∧
                readAll archive (path item) = None ∧
                m = UnableToOpenFile (path item)) ∧
  (r.2 ≠ [] → r.1 = nullImage) ∧
  (List.length r.2 ≤ 1)%nat.
Proof.
  cbv zeta. rewrite image_spec. split_and!.
  - by intros ->.
  - intros item -> Hn. by rewrite bool_decide_eq_false_2.
  - intros m. destruct (m_items s !! id) as [item |] eqn:Hi.
    + case_bool_decide as Hs.
      * destruct (readAll archive (path item)) eqn:Hr; simpl.
        -- split; [by intros ?%elem_of_nil |].
           intros (item' & [= <-] & _ & Hr' & _). congruence.
        -- rewrite list_elem_of_singleton. split.
           ++ intros [= ->]. by exists item.
           ++ intros (item' & [= <-] & _ & _ & ->). done.
      * simpl. rewrite list_elem_of_singleton. split; [done |].
        intros (item' & [= <-] & Hin & _). done.
    + simpl. rewrite list_elem_of_singleton. split; [done |].
      intros (item' & ? & _). done.
  - destruct (m_items s !! id) as [item |]; [| done].
    case_bool_decide; [| done].
    by destruct (readAll archive (path item)).
  - destruct (m_items s !! id) as [item |]; [| simpl; lia].
    case_bool_decide; [| simpl; lia].
    destruct (readAll archive (path item)); simpl; lia.
Qed.

(** An id the fixture book does not declare. *)
Lemma image_fails_soft_witness :
  @image Samples.gui Samples.album "nowhere" newEPubContainer =
  (None, [accessorWarn (AskedForUnknownItem "nowhere")]).
Proof.
  exact (proj1 (@image_fails_soft Samples.gui Samples.album "nowhere"
                  newEPubContainer) eq_refl).
Defined.

(** X2: after a package document was parsed, [image] of a manifest element
    with a supported media type (and an id no later element repeats)
    decodes the bytes of the archive entry at cleanPath(folder + href),
    without emitting anything; when that entry does not open the result is
    the null image and one error event. *)
Theorem image_reads_resolved_entry `{Qt} `{QtGui} (archive : QuaZip)
  (document : QDomDocument) (filepath : string) (s : EPubContainer)
  (l1 l2 : list QDomNode) (n : QDomNode) :
  manifestItems document = l1 ++ n :: l2 →
  validItem n = true →
  attribute n "id" ∉ List.map (λ n, attribute n "id") (List.filter validItem l2) →
  attribute n "media-type" ∈ supportedMimeTypes →
  let entry := cleanPath (contentFileFolder filepath +:+ attribute n "href") in
  image archive (attribute n "id") (parsePackageDocument document filepath s) =
  match readAll archive entry with
  | Some data => (fromData data, [])
  | None => (nullImage, [accessorError (UnableToOpenFile entry)])
  end.
Proof.
  intros Hm Hv Hl2 Hs. cbv zeta. rewrite image_spec.
  destruct (parsePackageDocument_registry document filepath s) as (Hi & _).
  rewrite Hi, parseManifestNodes_forEach, Hm.
  rewrite parseManifestItems_declared by done. simpl.
  by rewrite bool_decide_eq_true_2.
Qed.

(** The cover of the album: declared as cover.png in OEBPS/content.opf, read
    from OEBPS/cover.png. *)
Lemma image_reads_resolved_entry_witness :
  @image Samples.gui Samples.album "img"
    (@parsePackageDocument Fixture.qt Fixture.contentDom "OEBPS/content.opf"
       newEPubContainer) = (Some "cover bytes", []).
Proof.
  pose proof (@image_reads_resolved_entry Fixture.qt Samples.gui Samples.album
    Fixture.contentDom "OEBPS/content.opf" newEPubContainer
    (firstn 3 (manifestItems Fixture.contentDom))
    (skipn 4 (manifestItems Fixture.contentDom))
    (Fixture.el "item" [("id", "img"); ("href", "cover.png");
                        ("media-type", "image/png")] [])) as Hw.
  assert (manifestItems Fixture.contentDom =
          firstn 3 (manifestItems Fixture.contentDom)
          ++ Fixture.el "item" [("id", "img"); ("href", "cover.png");
                                ("media-type", "image/png")] []
             :: skipn 4 (manifestItems Fixture.contentDom)) as Hm
    by (vm_compute; reflexivity).
  assert (validItem (Fixture.el "item" [("id", "img"); ("href", "cover.png");
                                        ("media-type", "image/png")] []) = true)
    as Hv by (vm_compute; reflexivity).
  specialize (Hw Hm Hv).
  assert (attribute (Fixture.el "item" [("id", "img"); ("href", "cover.png");
                                        ("media-type", "image/png")] []) "id"
          ∉ List.map (λ n, attribute n "id")
              (List.filter validItem (skipn 4 (manifestItems Fixture.contentDom))))
    as Hnot.
  { apply (proj1 (bool_decide_eq_false _)). vm_compute. reflexivity. }
  assert (attribute (Fixture.el "item" [("id", "img"); ("href", "cover.png");
                                        ("media-type", "image/png")] [])
            "media-type" ∈ @supportedMimeTypes Samples.gui) as Hin.
  { apply (bool_decide_unpack _). vm_compute. exact I. }
  specialize (Hw Hnot Hin).
  vm_compute in Hw. vm_compute. exact Hw.
Defined.

(** ** Reading metadata back *)

Lemma copyAttributes_id (nodeMap : QDomNamedNodeMap) :
  copyAttributes nodeMap = itemNodes nodeMap.
Proof.
  unfold copyAttributes.
  apply (map_fold_weak_ind (λ r (m : gmap string string), r = m)); [done |].
  intros name value m r _ ->. done.
Qed.

Lemma parseMetadataItem_othermetatags (n : QDomNode) (s : EPubContainer) :
  let r := parseMetadataItem n s in
  m_othermetatags r.2 =
  match entryOf n (metadata s "creator") with
  | Some (name, _) =>
      if r.1 && negb (bool_decide (itemNodes (attributes n) = ∅))
      then <[name := itemNodes (attributes n)]> (m_othermetatags s)
      else m_othermetatags s
  | None => m_othermetatags s
  end.
Proof.
  cbv zeta. unfold parseMetadataItem, entryOf, metadataKind.
  rewrite copyAttributes_id.
  destruct (bool_decide (tagName n = "meta")); simpl.
  { destruct (isEmpty (attribute n "name") || isEmpty (attribute n "content"));
      [done |].
    by destruct (bool_decide (itemNodes (attributes n) = ∅)). }
  destruct (bool_decide (prefix n = "dc")); simpl; [| done].
  destruct (bool_decide (tagName n = "date")); simpl.
  { destruct (isEmpty (attribute n "event") || isEmpty (text n)); [done |].
    by destruct (bool_decide (itemNodes (attributes n) = ∅)). }
  destruct (bool_decide (tagName n = "creator")) eqn:Hc; simpl.
  - apply bool_decide_eq_true in Hc. rewrite Hc.
    destruct (subscript (m_metadata s) "creator") as [current md]; simpl.
    destruct (isEmpty current); simpl.
    + destruct (isEmpty (text n)); simpl; [done |].
      by destruct (bool_decide (itemNodes (attributes n) = ∅)).
    + destruct (isEmpty (current +:+ "; " +:+ text n)); simpl; [done |].
      by destruct (bool_decide (itemNodes (attributes n) = ∅)).
  - destruct (isEmpty (tagName n) || isEmpty (text n)); [done |].
    by destruct (bool_decide (itemNodes (attributes n) = ∅)).
Qed.

(** X3: [setMetadata] followed by [metadata] returns the value and leaves
    every other key as it read before; a key never stored reads as the empty
    string.  The parser and the setter write the same map: when
    [parseMetadataItem] returns true the entry it classified reads back
    through [metadata] with a value that is not empty, and a creator element
    parsed after [setMetadata] stored a creator is appended to that value
    behind "; ". *)
Theorem metadata_round_trip :
  (∀ (s : EPubContainer) (key value key' : string),
     metadata (setMetadata key value s) key' =
     if bool_decide (key = key') then value else metadata s key') ∧
  (∀ key : string, metadata newEPubContainer key = "") ∧
  (∀ (n : QDomNode) (s : EPubContainer),
     (parseMetadataItem n s).1 = true →
     ∃ name value,
       entryOf n (metadata s "creator") = Some (name, value) ∧
       value ≠ "" ∧ metadata (parseMetadataItem n s).2 name = value) ∧
  (∀ (n : QDomNode) (s : EPubContainer) (value : string),
     metadataKind n = DcCreator → value ≠ "" →
     metadata (parseMetadataItem n (setMetadata "creator" value s)).2 "creator"
     = value +:+ "; " +:+ text n).
Proof.
  assert (∀ (s : EPubContainer) (key value key' : string),
     metadata (setMetadata key value s) key' =
     if bool_decide (key = key') then value else metadata s key') as Hset.
  { intros s key value key'. unfold metadata, setMetadata. simpl.
    case_bool_decide as E.
    - subst. by rewrite lookup_insert_eq.
    - by rewrite lookup_insert_ne. }
  split_and!; [exact Hset | done | |].
  - intros n s Ht. pose proof (parseMetadataItem_spec n s) as Hs.
    cbv zeta in Hs.
    destruct (entryOf n (metadata s "creator")) as [[name value] |];
      [| by rewrite Hs in Ht].
    destruct (isEmpty name || isEmpty value) eqn:He.
    + destruct Hs as (Hf & _). congruence.
    + destruct Hs as (_ & _ & Hm). exists name, value. split; [done |].
      apply orb_false_iff in He as [_ Hv]. apply isEmpty_false in Hv.
      split; [done |]. unfold metadata. by rewrite Hm, lookup_insert_eq.
  - intros n s value Hk Hv. rewrite parseMetadataItem_creator by done.
    rewrite Hset. simpl. by rewrite (proj2 (isEmpty_false _) Hv).
Qed.

(** A title stored by hand and read back; a creator element met after a
    creator was stored by hand. *)
Lemma metadata_round_trip_witness :
  metadata (setMetadata "title" "T" newEPubContainer) "title" = "T" ∧
  metadata (parseMetadataItem (ElementNode "creator" "dc" ∅ [TextNode "B"])
              (setMetadata "creator" "A" newEPubContainer)).2 "creator"
  = "A; B".
Proof.
  split.
  - exact (proj1 metadata_round_trip newEPubContainer "title" "T" "title").
  - refine (proj2 (proj2 (proj2 metadata_round_trip))
              (ElementNode "creator" "dc" ∅ [TextNode "B"]) newEPubContainer
              "A" eq_refl _).
    discriminate.
Defined.

(** X4: when [parseMetadataItem] stores an entry for an element that has
    attributes, the map recorded under the name of the entry holds the value
    of every attribute node under its node name, the qualified name: for a
    creator with the attribute opf:role the record is keyed opf:role, where
    a lookup under namespace processing finds it as role.  For an element
    without attributes, and for every entry that is not stored, the maps
    recorded so far stay as they are, the one under the same name
    included. *)
Theorem othermetatags_follow_attributes (n : QDomNode) (s : EPubContainer) :
  let r := parseMetadataItem n s in
  (r.1 = true → itemNodes (attributes n) ≠ ∅ →
   ∃ name value,
     entryOf n (metadata s "creator") = Some (name, value) ∧
     m_othermetatags r.2 =
       <[name := itemNodes (attributes n)]> (m_othermetatags s)) ∧
  (r.1 = true → itemNodes (attributes n) = ∅ →
   m_othermetatags r.2 = m_othermetatags s) ∧
  (r.1 = false → m_othermetatags r.2 = m_othermetatags s).
Proof.
  cbv zeta. pose proof (parseMetadataItem_othermetatags n s) as Ho.
  cbv zeta in Ho. pose proof (parseMetadataItem_spec n s) as Hs.
  cbv zeta in Hs. split_and!.
  - intros Ht Hne. rewrite Ht in Ho.
    destruct (entryOf n (metadata s "creator")) as [[name value] |];
      [| by rewrite Hs in Ht].
    exists name, value. split; [done |].
    by rewrite bool_decide_eq_false_2 in Ho.
  - intros Ht He. rewrite Ht in Ho.
    destruct (entryOf n (metadata s "creator")) as [[name value] |]; [| done].
    by rewrite bool_decide_eq_true_2 in Ho.
  - intros Hf. rewrite Hf in Ho.
    by destruct (entryOf n (metadata s "creator")) as [[name value] |].
Qed.

(** A creator with the attribute opf:role, read with namespace processing,
    then a second creator without attributes: the value grows, the recorded
    attributes stay. *)
Lemma othermetatags_follow_attributes_witness :
  let first :=
    ElementNode "creator" "dc"
      {| namedItems := {[ "role" := "aut" ]};
         itemNodes := {[ "opf:role" := "aut" ]} |}
      [TextNode "A"] in
  let second := ElementNode "creator" "dc" ∅ [TextNode "B"] in
  let s1 := (parseMetadataItem first newEPubContainer).2 in
  let s2 := (parseMetadataItem second s1).2 in
  m_othermetatags s1 = {[ "creator" := {[ "opf:role" := "aut" ]} ]} ∧
  metadata s2 "creator" = "A; B" ∧
  m_othermetatags s2 = m_othermetatags s1.
Proof.
  cbv zeta. split_and!.
  - destruct (proj1 (othermetatags_follow_attributes
                (ElementNode "creator" "dc"
                   {| namedItems := {[ "role" := "aut" ]};
                      itemNodes := {[ "opf:role" := "aut" ]} |}
                   [TextNode "A"])
                newEPubContainer)) as (name & value & He & Ho).
    + reflexivity.
    + apply (proj1 (bool_decide_eq_false _)). vm_compute. reflexivity.
    + rewrite Ho. vm_compute in He. injection He as <- _. by vm_compute.
  - by vm_compute.
  - apply (proj1 (proj2 (othermetatags_follow_attributes
                (ElementNode "creator" "dc" ∅ [TextNode "B"]) _)));
      reflexivity.
Defined.

(** ** The trace *)

Lemma warnsOnly_refl (s : EPubContainer) : warnsOnly s s.
Proof. exists []. by rewrite app_nil_r. Qed.

Lemma warnsOnly_trans (s1 s2 s3 : EPubContainer) :
  warnsOnly s1 s2 → warnsOnly s2 s3 → warnsOnly s1 s3.
Proof.
  intros (w1 & H1 & F1) (w2 & H2 & F2). exists (w1 ++ w2).
  rewrite H2, H1, <- app_assoc. split; [done |]. by apply Forall_app.
Qed.

Lemma warnsOnly_same (s s' : EPubContainer) :
  events s' = events s → warnsOnly s s'.
Proof. intros He. exists []. by rewrite app_nil_r. Qed.

Lemma warnsOnly_warn (m : Message) (s : EPubContainer) : warnsOnly s (warn m s).
Proof. exists [QLOG_WARN m]. split; [done |]. by repeat constructor. Qed.

Lemma forEach_warnsOnly f (l : list QDomNode) (s : EPubContainer) :
  (∀ n s, warnsOnly s (f n s).2) → warnsOnly s (forEach f l s).
Proof.
  intros Hf. revert s. induction l as [| n l IH]; intros s.
  - apply warnsOnly_refl.
  - rewrite forEach_cons. eapply warnsOnly_trans; [apply Hf | apply IH].
Qed.

Lemma parseMetadataItem_warnsOnly (n : QDomNode) (s : EPubContainer) :
  warnsOnly s (parseMetadataItem n s).2.
Proof.
  pose proof (parseMetadataItem_spec n s) as Hs. cbv zeta in Hs.
  destruct (entryOf n (metadata s "creator")) as [[name value] |].
  - apply warnsOnly_same.
    destruct (isEmpty name || isEmpty value); by destruct Hs as (_ & He & _).
  - rewrite Hs. apply warnsOnly_warn.
Qed.

Lemma parseGuideItem_warnsOnly (n : QDomNode) (s : EPubContainer) :
  warnsOnly s (parseGuideItem n s).2.
Proof.
  pose proof (parseGuideItem_spec n s) as Hs. cbv zeta in Hs.
  destruct (isEmpty (attribute n "href") || isEmpty (attribute n "title")
            || isEmpty (attribute n "type")).
  - rewrite Hs. apply warnsOnly_warn.
  - apply warnsOnly_same. case_bool_decide; by destruct Hs as (_ & He & _).
Qed.

Lemma parseSpineItem_warnsOnly (n : QDomNode) (s : EPubContainer) :
  warnsOnly s (parseSpineItem n s).2.
Proof.
  rewrite parseSpineItem_spec. cbv zeta.
  destruct (resolves (m_items s) (attribute n "idref")); simpl.
  - by apply warnsOnly_same.
  - apply warnsOnly_warn.
Qed.

Section TraceFacts.
Context `{Qt}.

Lemma parseManifestItem_warnsOnly (folder : string) (n : QDomNode)
  (s : EPubContainer) :
  warnsOnly s (parseManifestItem n folder s).2.
Proof.
  rewrite parseManifestItem_spec. cbv zeta.
  destruct (validItem n); simpl; [| apply warnsOnly_warn].
  apply warnsOnly_same. by destruct (isDocument n).
Qed.

Lemma parseSpineNode_warnsOnly (spineElement : QDomNode) (s : EPubContainer) :
  warnsOnly s (parseSpineNode spineElement s).
Proof.
  unfold parseSpineNode.
  eapply warnsOnly_trans;
    [| apply forEach_warnsOnly; apply parseSpineItem_warnsOnly].
  apply warnsOnly_same. by destruct (_ && _).
Qed.

Lemma parsePackageDocument_warnsOnly (document : QDomDocument)
  (filepath : string) (s : EPubContainer) :
  warnsOnly s (parsePackageDocument document filepath s).
Proof.
  unfold parsePackageDocument. cbv zeta.
  set (s1 := parseMetadataNodes document s).
  set (s2 := parseManifestNodes document (contentFileFolder filepath) s1).
  set (s3 := parseSpineNodes document s2).
  apply (warnsOnly_trans s s1);
    [| apply (warnsOnly_trans s1 s2); [| apply (warnsOnly_trans s2 s3)]].
  - unfold s1, parseMetadataNodes. rewrite foldl_forEach.
    apply forEach_warnsOnly, parseMetadataItem_warnsOnly.
  - unfold s2. rewrite parseManifestNodes_forEach.
    apply forEach_warnsOnly. intros n s0. apply parseManifestItem_warnsOnly.
  - unfold s3, parseSpineNodes. generalize s2 as s0.
    generalize (documentElementsByTagName document "spine") as spines.
    intros spines.
    induction spines as [| sp spines IH]; intros s0; [apply warnsOnly_refl |].
    simpl. eapply warnsOnly_trans; [apply parseSpineNode_warnsOnly | apply IH].
  - unfold parseGuideNodes. rewrite foldl_forEach.
    apply forEach_warnsOnly, parseGuideItem_warnsOnly.
Qed.

(** The stages of [openFile], as what they leave. *)
Lemma parseContainer_cases (archive : QuaZip) (files : list string)
  (s s' : EPubContainer) (ok : bool) :
  parseContainer archive files s = (ok, s') →
  (ok = false ∧ ∃ evs m, s' = logAll (evs ++ [errorHappened m]) s) ∨
  (ok = true ∧ ∃ filepath content evs,
     packagePath archive = Some filepath ∧
     readAll archive filepath = Some content ∧
     s' = parsePackageDocument (setContent content true).2 filepath
            (logAll evs s)).
Proof.
  destruct ok.
  - intros Hc. right. split; [done |].
    apply parseContainer_success in Hc as (fp & c & Hp & Hr & evs & ->).
    by exists fp, c, evs.
  - rewrite parseContainer_spec. intros Hc. left. split; [done |].
    destruct (contains files CONTAINER_FILE);
      [| injection Hc as <-; by exists [], UnableToFindContainer].
    destruct (readAll archive CONTAINER_FILE) as [container |];
      [| injection Hc as <-; by exists [], UnableToOpenContainer].
    cbv zeta in Hc. destruct (List.find _ _) as [p |] eqn:Hf.
    + apply List.find_some in Hf as [_ Hu].
      apply usable_spec in Hu as [_ [c Hr]].
      by rewrite (parseContentFile_opened _ _ c) in Hc.
    + injection Hc as <-. eexists _, NoContentFiles. by rewrite logAll_app.
Qed.

Lemma parseMimetype_cases (archive : QuaZip) (files : list string)
  (s s' : EPubContainer) (ok : bool) :
  parseMimetype archive files s = (ok, s') →
  (ok = false ∧ ∃ m, s' = logAll [errorHappened m] s) ∨
  (ok = true ∧ ∃ evs, s' = logAll evs s).
Proof.
  unfold parseMimetype. intros Hp.
  repeat (case_match; simplify_eq/=);
    first [ left; split; [done |]; by eexists
          | right; split; [done |]; by exists []
          | right; split; [done |]; by eexists [_] ].
Qed.

Lemma parseToc_cases (fuel : nat) (archive : QuaZip) (files : list string)
  (s s' : EPubContainer) (ok : bool) :
  parseToc fuel archive files s = Some (ok, s') →
  (ok = false ∧ s' = emitError UnableToOpenContainer s ∧
   TOC_FILE ∈ files ∧ readAll archive TOC_FILE = None) ∨
  (ok = true ∧ (s' = s ∨ ∃ toc, s' = set_toc toc s)).
Proof.
  unfold parseToc, contains. intros Hp. case_bool_decide as Hin.
  - destruct (readAll archive TOC_FILE) as [data |] eqn:Hr.
    + destruct (setContent data false) as [[] document].
      * destruct (parseTocDocument fuel document (m_toc s)) as [t |]; [| done].
        injection Hp as <- <-. right. split; [done |]. right. by eexists.
      * injection Hp as <- <-. right. split; [done |]. by left.
    + injection Hp as <- <-. by left.
  - injection Hp as <- <-. right. split; [done |]. by left.
Qed.

Lemma openFile_cases (fuel : nat) (path : string) (s s' : EPubContainer)
  (ok : bool) :
  openFile fuel path s = Some (ok, s') →
  (ok = false ∧
   ∃ evs m, s' = logAll (evs ++ [errorHappened m]) (set_filename path s)) ∨
  (∃ document filepath evs,
     packageDocument path = Some document ∧
     let s2 := parsePackageDocument document filepath
                 (logAll evs (set_filename path s)) in
     (ok = false ∧ s' = emitError UnableToOpenContainer s2) ∨
     (ok = true ∧ (s' = s2 ∨ ∃ toc, s' = set_toc toc s2))).
Proof.
  unfold openFile, packageDocument.
  destruct (QuaZip_open path) as [archive |];
    [| intros [= <- <-]; left; split; [done |]; by exists [], (FailedToOpen path)].
  simpl. case_bool_decide as Hempty;
    [intros [= <- <-]; left; split; [done |]; by exists [], (FailedToRead path) |].
  destruct (parseMimetype archive (getFileNameList archive)
              (set_filename path s)) as [ok1 s1] eqn:Hm.
  apply parseMimetype_cases in Hm as [(-> & m & ->) | (-> & evs1 & ->)]; simpl.
  { intros [= <- <-]. left. split; [done |]. by exists [], m. }
  destruct (parseContainer archive (getFileNameList archive)
              (logAll evs1 (set_filename path s))) as [ok2 s2] eqn:Hc.
  apply parseContainer_cases in Hc
    as [(-> & evs2 & m & ->) | (-> & fp & c & evs2 & Hp & Hr & ->)]; simpl.
  { intros [= <- <-]. left. split; [done |]. exists (evs1 ++ evs2), m.
    by rewrite <- app_assoc, (logAll_app evs1). }
  destruct (parseToc fuel archive (getFileNameList archive) _)
    as [[ok3 s3] |] eqn:Ht; [| done].
  assert (∀ b : bool, (if negb b then Some (false, s3) else Some (true, s3))
                      = Some (b, s3)) as Hb by (by intros []).
  rewrite Hb. intros [= <- <-]. right.
  exists (setContent c true).2, fp, (evs1 ++ evs2).
  rewrite Hp. simpl. rewrite Hr. simpl. split; [done |].
  rewrite logAll_app.
  apply parseToc_cases in Ht as [(-> & -> & _) | (-> & Hs3)]; [by left | by right].
Qed.

End TraceFacts.

(** X5: the sub-parsers of a package document never raise an error event:
    whatever the document, the trace after [parsePackageDocument] is the
    trace before with warnings appended. *)
Theorem parsePackageDocument_warns_only `{Qt} (document : QDomDocument)
  (filepath : string) (s : EPubContainer) :
  ∃ ws, events (parsePackageDocument document filepath s) = events s ++ ws ∧
        Forall (λ e, isWarning e = true) ws.
Proof. apply parsePackageDocument_warnsOnly. Qed.

Lemma logAll_model (l : list Event) (s : EPubContainer) :
  m_metadata (logAll l s) = m_metadata s ∧
  m_othermetatags (logAll l s) = m_othermetatags s ∧
  m_items (logAll l s) = m_items s ∧
  m_unorderedItems (logAll l s) = m_unorderedItems s ∧
  m_orderedItems (logAll l s) = m_orderedItems s ∧
  m_standardReferences (logAll l s) = m_standardReferences s ∧
  m_otherReferences (logAll l s) = m_otherReferences s ∧
  m_toc (logAll l s) = m_toc s.
Proof.
  revert s. induction l as [| e l IH]; intros s; [done |].
  rewrite logAll_cons.
  destruct (IH (log e s)) as (-> & -> & -> & -> & -> & -> & -> & ->). done.
Qed.

(** X6: whatever [openFile] returns, the container holds the path as its
    file name and the earlier trace is kept with the new events behind it.
    When it returns false the last event of the trace is an error event;
    and when it returns false for a path that has no package document (no
    archive, no container.xml, no usable candidate) what was parsed before
    stays: the metadata and its attribute records, the item registry with
    both id collections, the page references and the table of contents are
    those of the container it was called on.  (The archive handle is
    another matter: the source replaces it first thing, and it is the
    archive at the new path that the accessors read afterwards.) *)
Theorem openFile_trace `{Qt} (fuel : nat) (path : string)
  (s s' : EPubContainer) (ok : bool) :
  openFile fuel path s = Some (ok, s') →
  m_filename s' = path ∧
  (∃ evs, events s' = events s ++ evs ∧
          (ok = false → ∃ evs' m, evs = evs' ++ [errorHappened m])) ∧
  (ok = false → packageDocument path = None →
   m_metadata s' = m_metadata s ∧
   m_othermetatags s' = m_othermetatags s ∧
   m_items s' = m_items s ∧
   m_unorderedItems s' = m_unorderedItems s ∧
   m_orderedItems s' = m_orderedItems s ∧
   m_standardReferences s' = m_standardReferences s ∧
   m_otherReferences s' = m_otherReferences s ∧
   m_toc s' = m_toc s).
Proof.
  assert (∀ l s0, m_filename (logAll l s0) = m_filename s0) as Hfn.
  { intros l. induction l as [| e l IH]; intros s0; [done |].
    rewrite logAll_cons, IH. done. }
  assert (∀ d f s0, m_filename (parsePackageDocument d f s0) = m_filename s0)
    as Hfp.
  { intros d f s0. unfold parsePackageDocument, parseGuideNodes,
      parseSpineNodes, parseManifestNodes, parseMetadataNodes.
    rewrite !foldl_forEach.
    rewrite (forEach_invariant m_filename parseGuideItem).
    2: { intros n s1. unfold parseGuideItem.
         repeat (case_match; simplify_eq/=); done. }
    match goal with |- m_filename (foldl ?g ?a ?l) = _ =>
      assert (∀ l0 a0, m_filename (foldl g a0 l0) = m_filename a0) as Hsp end.
    { intros l0. induction l0 as [| x l0 IH]; intros a0; [done |].
      simpl. rewrite IH. unfold parseSpineNode.
      rewrite (forEach_invariant m_filename parseSpineItem).
      - by destruct (_ && _).
      - intros n s1. rewrite parseSpineItem_spec. cbv zeta.
        by destruct (resolves _ _). }
    rewrite Hsp.
    rewrite (forEach_invariant m_filename (λ n, parseManifestItem n _)).
    2: { intros n s1. rewrite parseManifestItem_spec. cbv zeta.
         destruct (validItem n); [| done]. by destruct (isDocument n). }
    apply (forEach_invariant m_filename parseMetadataItem).
    intros n s1. unfold parseMetadataItem.
    repeat (case_match; simplify_eq/=); done. }
  intros Ho. apply openFile_cases in Ho
    as [(-> & evs & m & ->) | (document & fp & evs & Hd & Hs)].
  - split_and!.
    + by rewrite Hfn.
    + exists (evs ++ [errorHappened m]). rewrite events_logAll. split; [done |].
      intros _. by exists evs, m.
    + intros _ _. exact (logAll_model _ (set_filename path s)).
  - cbv zeta in Hs.
    destruct (parsePackageDocument_warnsOnly document fp
                (logAll evs (set_filename path s))) as (ws & Hw & _).
    rewrite events_logAll in Hw. simpl in Hw.
    destruct Hs as [(-> & ->) | (-> & [-> | (t & ->)])].
    + split_and!.
      * simpl. by rewrite Hfp, Hfn.
      * exists (evs ++ ws ++ [errorHappened UnableToOpenContainer]).
        simpl. rewrite Hw, <- !app_assoc. split; [done |].
        intros _. exists (evs ++ ws), UnableToOpenContainer.
        by rewrite <- app_assoc.
      * intros _ Hnone. congruence.
    + split_and!; [by rewrite Hfp, Hfn | | done].
      exists (evs ++ ws). rewrite Hw, <- app_assoc. done.
    + split_and!; [simpl; by rewrite Hfp, Hfn | | done].
      exists (evs ++ ws). simpl. rewrite Hw, <- app_assoc. done.
Qed.

(** A container that holds a title is opened at a path at which there is
    no archive: the call fails, the file name is the new path and the title
    is still there. *)
Lemma openFile_trace_witness :
  ∃ s', @openFile Fixture.qt 0 "absent.epub"
          (setMetadata "title" "T" newEPubContainer) = Some (false, s') ∧
        m_filename s' = "absent.epub" ∧ metadata s' "title" = "T".
Proof.
  assert (fst <$> @openFile Fixture.qt 0 "absent.epub"
                    (setMetadata "title" "T" newEPubContainer) = Some false)
    as Hf by (by vm_compute).
  destruct (@openFile Fixture.qt 0 "absent.epub"
              (setMetadata "title" "T" newEPubContainer)) as [[ok s'] |] eqn:Ho;
    [| discriminate Hf].
  injection Hf as ->. exists s'. split; [reflexivity |].
  destruct (@openFile_trace Fixture.qt 0 "absent.epub" _ s' false Ho)
    as (Hn & _ & Hm).
  split; [exact Hn |].
  destruct Hm as (Hm & _); [reflexivity | by vm_compute |].
  unfold metadata. rewrite Hm. by vm_compute.
Defined.

(** ** Opening more than once *)

(** X7: [openFile] does not reset the container.  A successful open appends
    the resolving idrefs of the package document to the orderedIds that were
    there and adds the manifest ids to the registry; so opening the same
    archive a second time on the same container leaves its reading order
    twice in orderedIds. *)
Theorem openFile_accumulates `{Qt} :
  (∀ (fuel : nat) (path : string) (s s' : EPubContainer),
     openFile fuel path s = Some (true, s') →
     ∃ document,
       packageDocument path = Some document ∧
       m_orderedItems s' =
         m_orderedItems s ++
         List.filter (resolves (m_items s')) (spineIdrefs document) ∧
       dom (m_items s') =
         dom (m_items s) ∪ list_to_set (manifestIds document)) ∧
  (∀ (fuel1 fuel2 : nat) (path : string) (s1 s2 : EPubContainer),
     openFile fuel1 path newEPubContainer = Some (true, s1) →
     openFile fuel2 path s1 = Some (true, s2) →
     m_orderedItems s2 = m_orderedItems s1 ++ m_orderedItems s1).
Proof.
  assert (∀ (fuel : nat) (path : string) (s s' : EPubContainer),
     openFile fuel path s = Some (true, s') →
     ∃ document,
       packageDocument path = Some document ∧
       m_orderedItems s' =
         m_orderedItems s ++
         List.filter (resolves (m_items s')) (spineIdrefs document) ∧
       dom (m_items s') =
         dom (m_items s) ∪ list_to_set (manifestIds document)) as Hone.
  { intros fuel path s s' Ho.
    apply openFile_success in Ho as (document & fp & evs & Hd & Hs).
    cbv zeta in Hs. destruct Hs as (Hi & Ho & _).
    exists document. split; [done |].
    destruct (parsePackageDocument_registry document fp
                (logAll evs (set_filename path s))) as (_ & Hdom & Hord & _).
    cbv zeta in Hord. rewrite Ho, Hi, Hord, Hdom.
    by destruct (logAll_registry evs (set_filename path s)) as (-> & -> & _). }
  split; [exact Hone |].
  intros fuel1 fuel2 path s1 s2 H1 H2.
  apply Hone in H1 as (d1 & Hd1 & Ho1 & Hi1).
  apply Hone in H2 as (d2 & Hd2 & Ho2 & Hi2).
  assert (d2 = d1) as -> by congruence.
  rewrite Ho2. f_equal. rewrite Ho1. simpl.
  apply List.filter_ext. intros r. unfold resolves.
  f_equal. apply bool_decide_ext. rewrite Hi2, Hi1. set_solver.
Qed.

(** The fixture book opened twice. *)
Lemma openFile_accumulates_witness :
  ∃ s1 s2,
    @openFile Fixture.qt 4 "book.epub" newEPubContainer = Some (true, s1) ∧
    @openFile Fixture.qt 4 "book.epub" s1 = Some (true, s2) ∧
    m_orderedItems s1 = ["c2"; "c1"] ∧
    m_orderedItems s2 = ["c2"; "c1"; "c2"; "c1"].
Proof.
  assert ((λ r, (r.1, m_orderedItems r.2))
            <$> @openFile Fixture.qt 4 "book.epub" newEPubContainer
          = Some (true, ["c2"; "c1"])) as Hfirst by (vm_compute; reflexivity).
  assert (fst <$> (@openFile Fixture.qt 4 "book.epub" newEPubContainer
                     ≫= λ r, @openFile Fixture.qt 4 "book.epub" r.2)
          = Some true) as Hsecond by (vm_compute; reflexivity).
  destruct (@openFile Fixture.qt 4 "book.epub" newEPubContainer)
    as [[ok1 s1] |] eqn:H1; [| discriminate].
  simpl in Hfirst, Hsecond. injection Hfirst as -> Ho1.
  destruct (@openFile Fixture.qt 4 "book.epub" s1)
    as [[ok2 s2] |] eqn:H2; [| discriminate].
  simpl in Hsecond. injection Hsecond as ->.
  exists s1, s2. split_and!; [done | done | done |].
  rewrite (proj2 (@openFile_accumulates Fixture.qt) 4 4 "book.epub" s1 s2 H1 H2).
  by rewrite Ho1.
Defined.

(** ** The table of contents stage *)

(** X8: a missing toc.ncx and a toc.ncx the XML reader rejects are both
    tolerated: [parseToc] returns true and the container is unchanged.  It
    returns false exactly when toc.ncx is listed and cannot be opened, with
    one error event.  Whatever it returns, only the table of contents and
    the trace can differ afterwards, and a successful return emits
    nothing. *)
Theorem parseToc_tolerant `{Qt} (fuel : nat) (archive : QuaZip)
  (files : list string) (s : EPubContainer) :
  (TOC_FILE ∉ files → parseToc fuel archive files s = Some (true, s)) ∧
  (∀ data, TOC_FILE ∈ files → readAll archive TOC_FILE = Some data →
           (setContent data false).1 = false →
           parseToc fuel archive files s = Some (true, s)) ∧
  (TOC_FILE ∈ files → readAll archive TOC_FILE = None →
   parseToc fuel archive files s =
   Some (false, emitError UnableToOpenContainer s)) ∧
  (∀ ok s', parseToc fuel archive files s = Some (ok, s') →
     (ok = false ↔ TOC_FILE ∈ files ∧ readAll archive TOC_FILE = None) ∧
     (ok = true → events s' = events s) ∧
     m_filename s' = m_filename s ∧
     m_metadata s' = m_metadata s ∧
     m_othermetatags s' = m_othermetatags s ∧
     m_items s' = m_items s ∧
     m_unorderedItems s' = m_unorderedItems s ∧
     m_orderedItems s' = m_orderedItems s ∧
     m_standardReferences s' = m_standardReferences s ∧
     m_otherReferences s' = m_otherReferences s).
Proof.
  split_and!.
  - intros Hn. unfold parseToc, contains. by rewrite bool_decide_eq_false_2.
  - intros data Hin Hr Hf. unfold parseToc, contains.
    rewrite bool_decide_eq_true_2, Hr by done.
    destruct (setContent data false) as [b document]. simpl in Hf. by subst b.
  - intros Hin Hr. unfold parseToc, contains.
    by rewrite bool_decide_eq_true_2, Hr.
  - intros ok s' Hp. pose proof Hp as Hc.
    apply parseToc_cases in Hc
      as [(-> & -> & Hin & Hr) | (-> & [-> | (t & ->)])].
    + split_and!; try done.
    + split_and!; try done. split; [done |]. intros [Hin Hr].
      unfold parseToc, contains in Hp.
      by rewrite bool_decide_eq_true_2, Hr in Hp.
    + split_and!; try done. split; [done |]. intros [Hin Hr].
      unfold parseToc, contains in Hp.
      by rewrite bool_decide_eq_true_2, Hr in Hp.
Qed.

(** The garbage fixture has no toc.ncx: the stage succeeds and changes
    nothing. *)
Lemma parseToc_tolerant_witness :
  @parseToc Fixture.qt 0 Fixture.garbage (getFileNameList Fixture.garbage)
    newEPubContainer = Some (true, newEPubContainer).
Proof.
  apply (proj1 (@parseToc_tolerant Fixture.qt 0 Fixture.garbage
                  (getFileNameList Fixture.garbage) newEPubContainer)).
  apply (proj1 (bool_decide_eq_false _)). vm_compute. reflexivity.
Defined.



(** ** The table-of-contents reference *)

Lemma typeFromString_name (name : string) :
  typeFromString name = Other ∨ standardName (typeFromString name) = name.
Proof.
  unfold typeFromString.
  repeat (case_bool_decide as E; [right; symmetry; exact E | clear E]).
  by left.
Qed.

Lemma typeFromString_toc (name : string) :
  typeFromString name = TableOfContents ↔ name = "toc".
Proof.
  split; [| by intros ->].
  intros Ht. destruct (typeFromString_name name) as [Ho | Hn]; [congruence |].
  by rewrite Ht in Hn.
Qed.

Lemma last_filter_snoc {A : Type} (p : A → bool) (l : list A) (x : A) :
  last (List.filter p (l ++ [x])) =
  if p x then Some x else last (List.filter p l).
Proof.
  rewrite List.filter_app. simpl. destruct (p x).
  - apply last_snoc.
  - by rewrite app_nil_r.
Qed.

(** A loop whose items either write a slot or leave it: the last writer
    decides. *)
Lemma forEach_last_write {V : Type} (slot : EPubContainer → option V) f
  (p : QDomNode → bool) (v : QDomNode → V) (l : list QDomNode)
  (s : EPubContainer) :
  (∀ n s, slot (f n s).2 = if p n then Some (v n) else slot s) →
  slot (forEach f l s) =
  match last (List.filter p l) with
  | Some n => Some (v n)
  | None => slot s
  end.
Proof.
  intros Hf. induction l as [| n l IH] using rev_ind; [done |].
  rewrite forEach_app, last_filter_snoc. simpl. rewrite Hf.
  destruct (p n); [done | exact IH].
Qed.

Lemma parseGuideItem_toc (n : QDomNode) (s : EPubContainer) :
  m_standardReferences (parseGuideItem n s).2 !! TableOfContents =
  if referenceOfType TableOfContents n then Some (referenceOf n)
  else m_standardReferences s !! TableOfContents.
Proof.
  pose proof (parseGuideItem_spec n s) as Hs. cbv zeta in Hs.
  unfold referenceOfType, validReference, referenceOf.
  destruct (isEmpty (attribute n "href")), (isEmpty (attribute n "title")),
    (isEmpty (attribute n "type")); simpl in *; try (by rewrite Hs).
  case_bool_decide as Hstd.
  - destruct Hs as (_ & _ & Hl & Ho & _). case_bool_decide as Ht.
    + by rewrite <- Ht.
    + apply Ho. congruence.
  - destruct Hs as (_ & _ & _ & _ & ->).
    rewrite bool_decide_eq_false_2; [done |].
    intros Ht. apply Hstd, typeFromString_standard. congruence.
Qed.

Section ReferenceFacts.
Context `{Qt}.

Lemma parseSpineNode_toc (spineElement : QDomNode) (s : EPubContainer) :
  m_standardReferences (parseSpineNode spineElement s) !! TableOfContents =
  if namesToc (m_items s) spineElement
  then Some {| target := attribute spineElement "toc";
               title := "Table of Contents" |}
  else m_standardReferences s !! TableOfContents.
Proof.
  unfold parseSpineNode, namesToc.
  rewrite (forEach_invariant m_standardReferences parseSpineItem).
  2: { intros n s0. rewrite parseSpineItem_spec. cbv zeta.
       by destruct (resolves _ _). }
  destruct (_ && _); simpl; [by rewrite lookup_insert_eq | done].
Qed.

Lemma parseSpineNodes_toc (spines : list QDomNode) (s : EPubContainer) :
  let s' := foldl (λ acc sp, parseSpineNode sp acc) s spines in
  m_items s' = m_items s ∧
  m_standardReferences s' !! TableOfContents =
  match last (List.filter (namesToc (m_items s)) spines) with
  | Some sp => Some {| target := attribute sp "toc";
                       title := "Table of Contents" |}
  | None => m_standardReferences s !! TableOfContents
  end.
Proof.
  cbv zeta. induction spines as [| sp spines [IHi IHr]] using rev_ind; [done |].
  rewrite foldl_snoc, last_filter_snoc.
  destruct (parseSpineNode_spec sp
              (foldl (λ acc sp0, parseSpineNode sp0 acc) s spines)) as (Hi & _).
  rewrite Hi, parseSpineNode_toc, IHi. split; [done |].
  destruct (namesToc (m_items s) sp); [done | exact IHr].
Qed.

Lemma parsePackageDocument_toc (document : QDomDocument) (filepath : string)
  (s : EPubContainer) :
  let s' := parsePackageDocument document filepath s in
  m_standardReferences s' !! TableOfContents =
  match last (List.filter (referenceOfType TableOfContents)
                          (guideReferences document)) with
  | Some g => Some (referenceOf g)
  | None =>
      match last (List.filter (namesToc (m_items s')) (spineElements document)) with
      | Some sp => Some {| target := attribute sp "toc";
                           title := "Table of Contents" |}
      | None => m_standardReferences s !! TableOfContents
      end
  end.
Proof.
  cbv zeta.
  destruct (parsePackageDocument_registry document filepath s) as (Hi & _).
  rewrite Hi. unfold parsePackageDocument, parseGuideNodes, guideReferences.
  rewrite foldl_forEach.
  rewrite (forEach_last_write (λ s0, m_standardReferences s0 !! TableOfContents)
             parseGuideItem (referenceOfType TableOfContents) referenceOf)
    by apply parseGuideItem_toc.
  destruct (last _) as [g |]; [done |].
  unfold parseSpineNodes, spineElements.
  destruct (parseSpineNodes_toc (documentElementsByTagName document "spine")
    (parseManifestNodes document (contentFileFolder filepath)
       (parseMetadataNodes document s))) as (_ & Hr).
  rewrite Hr. clear Hr.
  assert (m_items (parseManifestNodes document (contentFileFolder filepath)
                     (parseMetadataNodes document s)) =
          m_items (parseManifestNodes document (contentFileFolder filepath) s))
    as ->.
  { destruct (parsePackageDocument_registry document filepath s) as (Hi' & _).
    rewrite <- Hi'. unfold parsePackageDocument.
    destruct (parseGuideNodes_registry document
      (parseSpineNodes document
         (parseManifestNodes document (contentFileFolder filepath)
            (parseMetadataNodes document s)))) as (-> & _).
    by destruct (parseSpineNodes_spec document
      (parseManifestNodes document (contentFileFolder filepath)
         (parseMetadataNodes document s))) as (-> & _). }
  destruct (last _) as [sp |]; [done |].
  rewrite parseManifestNodes_forEach.
  rewrite (forEach_invariant m_standardReferences (λ n, parseManifestItem n _)).
  2: { intros n s0. rewrite parseManifestItem_spec. cbv zeta.
       destruct (validItem n); [| done]. by destruct (isDocument n). }
  unfold parseMetadataNodes. rewrite foldl_forEach.
  rewrite (forEach_invariant m_standardReferences parseMetadataItem); [done |].
  intros n s0. unfold parseMetadataItem.
  repeat (case_match; simplify_eq/=); done.
Qed.

End ReferenceFacts.

(** X10: the table-of-contents reference a package document leaves is
    decided by the guide before the spine.  When the guide has complete
    references of type toc, the last of them is the reference; otherwise the
    last spine whose toc attribute names a manifest id gives a reference to
    that id with the title Table of Contents; otherwise the reference is
    what it was before.  A reference is of type toc exactly when it is
    complete and its type attribute is the string toc. *)
Theorem toc_reference_precedence `{Qt} :
  (∀ (document : QDomDocument) (filepath : string) (s : EPubContainer),
     let s' := parsePackageDocument document filepath s in
     m_standardReferences s' !! TableOfContents =
     match last (List.filter (referenceOfType TableOfContents)
                             (guideReferences document)) with
     | Some g => Some (referenceOf g)
     | None =>
         match last (List.filter (namesToc (m_items s'))
                                 (spineElements document)) with
         | Some sp => Some {| target := attribute sp "toc";
                              title := "Table of Contents" |}
         | None => m_standardReferences s !! TableOfContents
         end
     end) ∧
  (∀ n : QDomNode,
     referenceOfType TableOfContents n = true ↔
     attribute n "href" ≠ "" ∧ attribute n "title" ≠ "" ∧
     attribute n "type" = "toc").
Proof.
  split; [apply parsePackageDocument_toc |].
  intros n. unfold referenceOfType, validReference.
  rewrite !andb_true_iff, !negb_true_iff, !isEmpty_false, bool_decide_eq_true.
  rewrite typeFromString_toc. split.
  - intros [[[? ?] ?] ?]. done.
  - intros (? & ? & Ht). rewrite Ht. done.
Qed.

(** The spine names ncx, the guide has a reference of type toc: the guide's
    reference is the one kept. *)
Lemma toc_reference_precedence_witness :
  m_standardReferences
    (@parsePackageDocument Fixture.qt Samples.guidedDom "content.opf"
       newEPubContainer) !! TableOfContents =
  Some {| target := "contents.xhtml"; title := "Contents" |}.
Proof.
  rewrite (proj1 (@toc_reference_precedence Fixture.qt)).
  by vm_compute.
Defined.

(** ** Spine items that are not linear *)

Lemma spineIdrefs_itemrefs (document : QDomDocument) :
  spineIdrefs document =
  List.map (λ n, attribute n "idref") (spineItemrefs document).
Proof.
  unfold spineIdrefs, spineItemrefs, spineElements.
  induction (documentElementsByTagName document "spine") as [| sp l IH];
    [done |].
  simpl. by rewrite IH, List.map_app.
Qed.

(** X11: the spine parser decides by the idref of an itemref alone.  Two
    itemrefs with the same idref get the same flag and leave the same
    registry, and when the idref is not empty they leave the same container
    altogether, so a linear attribute changes nothing (only the warning for
    an itemref without idref tells two such itemrefs apart, by their line).
    After a package document was parsed every itemref whose idref resolves
    has its id in orderedIds. *)
Theorem itemrefs_ordered_whatever_linear `{Qt} :
  (∀ (n n' : QDomNode) (s : EPubContainer),
     attribute n "idref" = attribute n' "idref" →
     let r := parseSpineItem n s in
     let r' := parseSpineItem n' s in
     r.1 = r'.1 ∧ m_items r.2 = m_items r'.2 ∧
     m_orderedItems r.2 = m_orderedItems r'.2 ∧
     m_unorderedItems r.2 = m_unorderedItems r'.2 ∧
     (attribute n "idref" ≠ "" → r = r')) ∧
  (∀ (document : QDomDocument) (filepath : string) (s : EPubContainer)
     (n : QDomNode),
     let s' := parsePackageDocument document filepath s in
     n ∈ spineItemrefs document →
     resolves (m_items s') (attribute n "idref") = true →
     attribute n "idref" ∈ m_orderedItems s').
Proof.
  split.
  - intros n n' s He. cbv zeta. rewrite !parseSpineItem_spec. cbv zeta.
    rewrite <- He. by split_and!.
  - intros document filepath s n s' Hin Hr. unfold s'.
    destruct (parsePackageDocument_registry document filepath s)
      as (_ & _ & Ho & _).
    cbv zeta in Ho. rewrite Ho. apply elem_of_app. right.
    rewrite list_elem_of_In. apply List.filter_In. split; [| exact Hr].
    rewrite spineIdrefs_itemrefs.
    apply (List.in_map (λ n0, attribute n0 "idref")).
    by apply list_elem_of_In.
Qed.

(** The only itemref of the sample is marked linear no and is ordered. *)
Lemma itemrefs_ordered_whatever_linear_witness :
  attribute (Fixture.el "itemref" [("idref", "c1"); ("linear", "no")] [])
            "linear" = "no" ∧
  "c1" ∈ m_orderedItems
           (@parsePackageDocument Fixture.qt Samples.guidedDom "content.opf"
              newEPubContainer).
Proof.
  split; [by vm_compute |].
  refine (proj2 (@itemrefs_ordered_whatever_linear Fixture.qt)
            Samples.guidedDom "content.opf" newEPubContainer
            (Fixture.el "itemref" [("idref", "c1"); ("linear", "no")] []) _ _).
  - assert (spineItemrefs Samples.guidedDom =
            [Fixture.el "itemref" [("idref", "c1"); ("linear", "no")] []]) as ->
      by (vm_compute; reflexivity).
    left.
  - by vm_compute.
Defined.

(** ** Names of the standard types *)

(** X12: the names of the standard reference types can be read back from
    the type: [typeFromString] either answers Other or a type whose name is
    the string it was given, every type but Other is reached from its name,
    and so two different strings never share a standard type. *)
Theorem typeFromString_names :
  (∀ name : string,
     typeFromString name = Other ∨ standardName (typeFromString name) = name) ∧
  (∀ t : StandardType, t ≠ Other → typeFromString (standardName t) = t) ∧
  (∀ a b : string,
     typeFromString a = typeFromString b → typeFromString a ≠ Other → a = b).
Proof.
  split_and!.
  - apply typeFromString_name.
  - by intros [].
  - intros a b He Hn.
    destruct (typeFromString_name a) as [Ha | Ha]; [done |].
    destruct (typeFromString_name b) as [Hb | Hb]; [congruence |].
    congruence.
Qed.

(** ** The folder is a prefix of the path *)

Lemma lastIndexOf_split (c : ascii) (s : string) :
  lastIndexOf c s = (-1)%Z ∨
  ∃ a b, s = a +:+ String c b ∧ lastIndexOf c b = (-1)%Z ∧
         lastIndexOf c s = Z.of_nat (String.length a).
Proof.
  induction s as [| x s IH]; [by left |].
  simpl. destruct IH as [Hn | (a & b & -> & Hb & Hi)].
  - rewrite Hn, bool_decide_eq_true_2 by done.
    case_bool_decide as Hx; [| by left].
    subst x. right. by exists "", s.
  - right. exists (String x a), b. split_and!; [done | done |].
    rewrite Hi, bool_decide_eq_false_2 by lia. simpl. lia.
Qed.

Lemma append_char (a b : string) (c : ascii) :
  a +:+ String c b = (a +:+ String c "") +:+ b.
Proof.
  induction a as [| y a IH]; [done |].
  change (String y (a +:+ String c b) = String y ((a +:+ String c "") +:+ b)).
  by rewrite IH.
Qed.

(** X13: the folder [parseContentFile] resolves hrefs against is always a
    prefix of the path of the package document.  When it is not empty it
    ends with a slash and what follows it in the path holds no slash; it is
    empty exactly when the path has no slash after its first character. *)
Theorem contentFileFolder_prefix (filepath : string) :
  (∃ file, filepath = contentFileFolder filepath +:+ file ∧
           (contentFileFolder filepath ≠ "" →
            lastIndexOf "/" file = (-1)%Z ∧
            ∃ d, d ≠ "" ∧ contentFileFolder filepath = d +:+ "/")) ∧
  (contentFileFolder filepath = "" ↔ (lastIndexOf "/" filepath ≤ 0)%Z).
Proof.
  unfold contentFileFolder.
  destruct (lastIndexOf_split "/" filepath) as [Hn | (a & b & -> & Hb & Hi)].
  - rewrite Hn. simpl. split; [| split; [lia | done]].
    exists filepath. split; [done |]. done.
  - rewrite Hi. destruct a as [| x a].
    + simpl. split; [| split; [lia | done]].
      exists (String "/" b). split; [done |]. done.
    + assert ((0 <? Z.of_nat (String.length (String x a)))%Z = true) as ->
        by (apply Z.ltb_lt; simpl; lia).
      rewrite left_append. split.
      * exists b. split.
        -- apply append_char.
        -- intros _. split; [done |]. by exists (String x a).
      * split; [done |]. simpl. lia.
Qed.

(** ** What a package document leaves of an earlier registry *)

(** X14: parsing a package document into a container that already holds a
    registry only adds to it.  An item whose id the manifest does not
    declare is kept as it was, so no id leaves the registry; the orderedIds
    that were there stay in front of the new ones; an id leaves
    unorderedIds only when an idref of the spine names it; and every id in
    orderedIds was there before or is an id of the registry. *)
Theorem package_keeps_registry `{Qt} (document : QDomDocument)
  (filepath : string) (s : EPubContainer) :
  let s' := parsePackageDocument document filepath s in
  (∀ id, id ∉ manifestIds document → m_items s' !! id = m_items s !! id) ∧
  dom (m_items s) ⊆ dom (m_items s') ∧
  (∃ more, m_orderedItems s' = m_orderedItems s ++ more) ∧
  (∀ id, id ∈ m_unorderedItems s → id ∉ spineIdrefs document →
         id ∈ m_unorderedItems s') ∧
  (∀ id, id ∈ m_orderedItems s' →
         id ∈ m_orderedItems s ∨ id ∈ dom (m_items s')).
Proof.
  cbv zeta.
  destruct (parsePackageDocument_registry document filepath s)
    as (Hi & Hd & Ho & Hu).
  cbv zeta in Ho, Hu. split_and!.
  - intros id Hn. rewrite Hi, parseManifestNodes_forEach.
    by apply parseManifestItems_lookup_other.
  - rewrite Hd. set_solver.
  - by eexists.
  - intros id Hin Hn. rewrite Hu. apply elem_of_difference. split.
    + set_solver.
    + rewrite elem_of_list_to_set, elem_of_resolved. tauto.
  - intros id Hin. rewrite Ho in Hin. apply elem_of_app in Hin as [Hin | Hin].
    + by left.
    + right. apply elem_of_resolved in Hin. tauto.
Qed.
